(** * qubesmgmt.app: the qubesd client transports and the domain collection

    A shallow embedding of [qubesmgmt/app.py] (Python 3 semantics: [str] and
    [bytes] are distinct types that never compare equal) together with the
    properties of its request encoding, its two transports and its lazily
    filled VM cache; and of [qubesadmin/tools/qvm_device.py], the device
    tool: its table, its four commands, its argument action and [main]. *)

From Stdlib Require Import List Strings.String Strings.Ascii Strings.Byte.
From Stdlib Require Import ZArith NArith Bool Lia.
From Stdlib Require Import Sorting.Sorted Sorting.Permutation.
From Stdlib Require OrderedTypeEx.
Import ListNotations.

Local Open Scope string_scope.
Local Open Scope list_scope.

(** ** Python values *)

(** [bytes] objects are byte lists.  A [str] is kept as the UTF-8 encoding of
    its text, one Rocq character per code unit, so that pure ASCII text is
    written as an ordinary literal. *)
Definition bytes := list byte.
Definition str := string.

Definition bytes_of (s : string) : bytes := list_byte_of_string s.

(** The values that flow through [app.py]: [None], text and bytes. *)
Inductive pyval :=
| PNone
| PStr (s : str)
| PBytes (data : bytes).

Definition bytes_eqb (x y : bytes) : bool :=
  if list_eq_dec Byte.byte_eq_dec x y then true else false.

(** Python [==] on these values; a [str] never equals a [bytes]. *)
Definition py_eqb (x y : pyval) : bool :=
  match x, y with
  | PNone, PNone => true
  | PStr s, PStr t => String.eqb s t
  | PBytes s, PBytes t => bytes_eqb s t
  | _, _ => false
  end.

Definition of_option (arg : option str) : pyval :=
  match arg with
  | None => PNone
  | Some s => PStr s
  end.

(** ** Exceptions and the state-and-error monad *)

Inductive exn :=
| AttributeError
| TypeError
| ValueError
| KeyError (key : pyval)
| UnicodeEncodeError
| UnicodeDecodeError (object : bytes)
| OSError (errno : Z)
| QubesException (message_format : str) (args : list str)
| QubesDaemonError (kind message : bytes)
| MalformedResponse.

(** [IOError] is an alias of [OSError]. *)
Definition is_IOError (e : exn) : bool :=
  match e with
  | OSError _ => true
  | _ => false
  end.

Inductive result (A : Type) :=
| Ret (a : A)
| Raise (e : exn).
Arguments Ret {A} a.
Arguments Raise {A} e.

Definition M (S A : Type) : Type := S -> result A * S.

Definition ret {S A} (a : A) : M S A := fun s => (Ret a, s).
Definition raise {S A} (e : exn) : M S A := fun s => (Raise e, s).
Definition lift {S A} (r : result A) : M S A := fun s => (r, s).

Definition bind {S A B} (m : M S A) (k : A -> M S B) : M S B :=
  fun s =>
    match m s with
    | (Ret a, s') => k a s'
    | (Raise e, s') => (Raise e, s')
    end.

Declare Scope py_scope.
Delimit Scope py_scope with py.
Notation "x <- m ;; k" := (bind m (fun x => k))
  (at level 61, m at next level, right associativity) : py_scope.
Notation "m ;; k" := (bind m (fun _ => k))
  (at level 61, right associativity) : py_scope.

(** [try: body / except IOError: raise]: the handler re-raises what it caught,
    every other exception passes through untouched. *)
Definition try_except_IOError_reraise {S A} (body : M S A) : M S A :=
  fun s =>
    match body s with
    | (Ret a, s') => (Ret a, s')
    | (Raise e, s') => if is_IOError e then (Raise e, s') else (Raise e, s')
    end.

(** A [for] loop whose body may raise: the first exception ends the loop. *)
Fixpoint for_each {S A} (xs : list A) (body : A -> M S unit) : M S unit :=
  match xs with
  | [] => ret tt
  | x :: rest => bind (body x) (fun _ => for_each rest body)
  end.

(** ** Built-in operations used by the module *)

Definition is_ascii (c : byte) : bool := (Byte.to_N c <? 128)%N.

(** [value.encode('ascii')]: only [str] has the method; code points above 127
    cannot be encoded. *)
Definition encode_ascii (v : pyval) : result bytes :=
  match v with
  | PStr s =>
      let raw := list_byte_of_string s in
      if forallb is_ascii raw then Ret raw else Raise UnicodeEncodeError
  | PNone => Raise AttributeError
  | PBytes _ => Raise AttributeError
  end.

(** [iter(v, sentinel)] requires a callable [v].  None of [None], [str] and
    [bytes] is callable, so on every value of this universe it raises
    [TypeError] and yields no item. *)
Definition iter2 (v sentinel : pyval) : result (list bytes) :=
  match v with
  | PNone => Raise TypeError
  | PStr _ => Raise TypeError
  | PBytes _ => Raise TypeError
  end.

(** [sep.join(items)] on bytes. *)
Fixpoint bytes_join (sep : bytes) (items : list bytes) : bytes :=
  match items with
  | [] => []
  | [x] => x
  | x :: rest => x ++ sep ++ bytes_join sep rest
  end.

(** [data.split(sep, maxsplit)] for a one-byte separator; [maxsplit = None]
    is the unlimited default. *)
Fixpoint bytes_split (sep : byte) (maxsplit : option nat) (data : bytes)
  : list bytes :=
  match data with
  | [] => [[]]
  | c :: rest =>
      let cut :=
        Byte.eqb c sep &&
        match maxsplit with Some O => false | _ => true end in
      if cut then
        [] :: bytes_split sep (option_map Nat.pred maxsplit) rest
      else
        match bytes_split sep maxsplit rest with
        | [] => [[c]]
        | field :: fields => (c :: field) :: fields
        end
  end.

(** [data.splitlines()] on bytes: lines end at LF, CR or CRLF, and no empty
    line follows a final terminator.  [after_cr] tells that the previous byte
    was a CR, whose following LF belongs to the same terminator. *)
Fixpoint splitlines_from (after_cr : bool) (data : bytes) : list bytes :=
  match data with
  | [] => []
  | c :: rest =>
      if Byte.eqb c x0a then
        if after_cr then splitlines_from false rest
        else [] :: splitlines_from false rest
      else if Byte.eqb c x0d then
        [] :: splitlines_from true rest
      else
        match splitlines_from false rest with
        | [] => [[c]]
        | line :: lines => (c :: line) :: lines
        end
  end.

Definition splitlines (data : bytes) : list bytes := splitlines_from false data.

(** Strict UTF-8 validation, as done by [bytes.decode()] with its defaults. *)
Definition in_range (lo hi : N) (c : byte) : bool :=
  ((lo <=? Byte.to_N c) && (Byte.to_N c <=? hi))%N.

Definition cont (c : byte) : bool := in_range 128 191 c.

Fixpoint utf8_valid (data : bytes) : bool :=
  match data with
  | [] => true
  | c0 :: rest =>
      if is_ascii c0 then utf8_valid rest
      else if in_range 194 223 c0 then
        match rest with
        | c1 :: rest' => cont c1 && utf8_valid rest'
        | _ => false
        end
      else if in_range 224 239 c0 then
        match rest with
        | c1 :: c2 :: rest' =>
            in_range (if in_range 224 224 c0 then 160 else 128)
                     (if in_range 237 237 c0 then 159 else 191) c1
            && cont c2 && utf8_valid rest'
        | _ => false
        end
      else if in_range 240 244 c0 then
        match rest with
        | c1 :: c2 :: c3 :: rest' =>
            in_range (if in_range 240 240 c0 then 144 else 128)
                     (if in_range 244 244 c0 then 143 else 191) c1
            && cont c2 && cont c3 && utf8_valid rest'
        | _ => false
        end
      else false
  end.

(** [data.decode()]: the text when [data] is well-formed UTF-8. *)
Definition bytes_decode (data : bytes) : result str :=
  if utf8_valid data then Ret (string_of_list_byte data)
  else Raise (UnicodeDecodeError data).

(** ** Module constants *)

Definition QUBESD_SOCK : str := "/var/run/qubesd.sock".
Definition BUF_SIZE : nat := 4096.

(** ** Dictionaries

    A [dict] keeps its keys in insertion order; assigning to a key that is
    already present replaces the value in place. *)

Definition dict (V : Type) := list (pyval * V).

Fixpoint dict_get {V} (k : pyval) (d : dict V) : option V :=
  match d with
  | [] => None
  | (k', v) :: rest => if py_eqb k k' then Some v else dict_get k rest
  end.

Fixpoint dict_set {V} (k : pyval) (v : V) (d : dict V) : dict V :=
  match d with
  | [] => [(k, v)]
  | (k', v') :: rest =>
      if py_eqb k k' then (k', v) :: rest else (k', v') :: dict_set k v rest
  end.

Definition dict_contains {V} (k : pyval) (d : dict V) : bool :=
  match dict_get k d with
  | Some _ => true
  | None => false
  end.

Definition dict_keys {V} (d : dict V) : list pyval := map fst d.

(** [d[k]]: a missing key raises [KeyError(k)]. *)
Definition dict_index {V} (d : dict V) (k : pyval) : result V :=
  match dict_get k d with
  | Some v => Ret v
  | None => Raise (KeyError k)
  end.

(** [dict(items)] for a list of sequences: every item must have exactly two
    elements, otherwise [ValueError]. *)
Fixpoint dict_of_seq (items : list (list bytes)) (acc : dict pyval)
  : result (dict pyval) :=
  match items with
  | [] => Ret acc
  | [k; v] :: rest => dict_of_seq rest (dict_set (PBytes k) (PBytes v) acc)
  | _ :: _ => Raise ValueError
  end.

(** ** The response decoder *)

(** Modelled from the spec: [_parse_qubesd_response] is inherited from
    [qubesmgmt.PropertyHolder], whose module is not part of the sources at
    hand.  A response starting with the two bytes ["0\0"] is a success and the
    rest is the payload.  Anything else is an error: after the marker
    ["2\0"] of an error envelope, when there is one, kind and message are
    separated by the first NUL or newline byte (so
    ["2\0NotImplementedError\0no such method"] has the kind
    [NotImplementedError] and the message [no such method]); a buffer with
    no separator is malformed.  The transports below take the decoder as a
    parameter; this one instantiates it in examples. *)
Fixpoint split_first_separator (data : bytes) : option (bytes * bytes) :=
  match data with
  | [] => None
  | c :: rest =>
      if Byte.eqb c x00 || Byte.eqb c x0a then Some ([], rest)
      else match split_first_separator rest with
           | Some (kind, message) => Some (c :: kind, message)
           | None => None
           end
  end.

Definition spec_error_envelope (envelope : bytes) : result bytes :=
  match split_first_separator envelope with
  | Some (kind, message) => Raise (QubesDaemonError kind message)
  | None => Raise MalformedResponse
  end.

Definition spec_parse_qubesd_response (raw : bytes) : result bytes :=
  match raw with
  | x30 :: x00 :: payload => Ret payload
  | x32 :: x00 :: envelope => spec_error_envelope envelope
  | _ => spec_error_envelope raw
  end.

(** ** class QubesLocal *)

Module QubesLocal.

(** The UNIX socket as the client sees it.  [connect_error] is what
    [connect] raises, if anything; [inbox] holds the chunks the daemon
    delivers before it closes its side; the other fields record what the
    client did. *)
Record channel := {
  connect_error : option exn;
  connects : list str;
  sent : list bytes;
  inbox : list bytes;
  recvs : nat
}.

(** Everything written so far, as one byte sequence. *)
Definition wire (ch : channel) : bytes := List.concat (sent ch).

(** [socket.socket(AF_UNIX, SOCK_STREAM)] followed by [connect(address)]. *)
Definition connect (address : str) : M channel unit :=
  fun ch =>
    let ch' := {| connect_error := connect_error ch;
                  connects := connects ch ++ [address];
                  sent := sent ch;
                  inbox := inbox ch;
                  recvs := recvs ch |} in
    match connect_error ch with
    | Some e => (Raise e, ch')
    | None => (Ret tt, ch')
    end.

Definition sendall (data : bytes) : M channel unit :=
  fun ch =>
    (Ret tt, {| connect_error := connect_error ch;
                connects := connects ch;
                sent := sent ch ++ [data];
                inbox := inbox ch;
                recvs := recvs ch |}).

(** [recv(bufsize)]: at most [bufsize] bytes of the next chunk, or [b''] once
    the peer has closed. *)
Definition recv (bufsize : nat) : M channel bytes :=
  fun ch =>
    match inbox ch with
    | [] =>
        (Ret [], {| connect_error := connect_error ch;
                    connects := connects ch;
                    sent := sent ch;
                    inbox := [];
                    recvs := Datatypes.S (recvs ch) |})
    | chunk :: later =>
        (Ret (firstn bufsize chunk),
         {| connect_error := connect_error ch;
            connects := connects ch;
            sent := sent ch;
            inbox := match skipn bufsize chunk with
                     | [] => later
                     | more => more :: later
                     end;
            recvs := Datatypes.S (recvs ch) |})
    end.

Section Decoder.
Variable _parse_qubesd_response : bytes -> result bytes.

Local Open Scope py_scope.

Definition _do_qubesd_call (dest method : str) (arg : option str)
           (payload : option bytes) : M channel bytes :=
  try_except_IOError_reraise (connect QUBESD_SOCK) ;;
  (* src, method, dest, arg *)
  for_each [PStr "dom0"; PStr method; PStr dest; of_option arg]
    (fun call_arg =>
       encoded <- lift (encode_ascii call_arg) ;;
       sendall encoded ;;
       sendall [x00]) ;;
  match payload with
  | Some data => sendall data
  | None => ret tt
  end ;;
  chunk <- recv BUF_SIZE ;;
  items <- lift (iter2 (PBytes chunk) (PBytes [])) ;;
  let return_data := bytes_join [] items in
  lift (_parse_qubesd_response return_data).
End Decoder.

End QubesLocal.

(** ** class QubesRemote *)

Module QubesRemote.

(** What [communicate] reports once the proxy process has exited. *)
Record completed := {
  stdout : bytes;
  stderr : bytes;
  returncode : Z
}.

Inductive event :=
| Popen (argv : list str)
| Communicate (argv : list str) (input : option bytes).

(** The machine the client runs on: whether starting a program fails, what a
    started program does with its input, and the record of what was
    started and fed. *)
Record host := {
  spawn_error : list str -> option exn;
  run : list str -> option bytes -> completed;
  trace : list event
}.

Definition log (ev : event) (h : host) : host :=
  {| spawn_error := spawn_error h; run := run h; trace := trace h ++ [ev] |}.

(** [subprocess.Popen(argv, stdin=PIPE, stdout=PIPE, stderr=PIPE)]. *)
Definition popen (argv : list str) : M host (list str) :=
  fun h =>
    match spawn_error h argv with
    | Some e => (Raise e, log (Popen argv) h)
    | None => (Ret argv, log (Popen argv) h)
    end.

(** [p.communicate(input)]: writes [input] (nothing for [None]) to the
    process's input stream, closes it and waits for the exit. *)
Definition communicate (p : list str) (input : option bytes)
  : M host completed :=
  fun h => (Ret (run h p input), log (Communicate p input) h).

Section Decoder.
Variable _parse_qubesd_response : bytes -> result bytes.

Local Open Scope py_scope.
Local Open Scope string_scope.

Definition service_name_of (method : str) (arg : option str) : str :=
  let service_name := method in
  match arg with
  | Some a => service_name ++ ("+" ++ a)
  | None => service_name
  end.

Definition _do_qubesd_call (dest method : str) (arg : option str)
           (payload : option bytes) : M host bytes :=
  let service_name := service_name_of method arg in
  p <- popen ["qrexec-client-vm"; dest; service_name]%list ;;
  out <- communicate p payload ;;
  if negb (returncode out =? 0)%Z then
    (* TODO: use dedicated exception *)
    text <- lift (bytes_decode (stderr out)) ;;
    raise (QubesException "Service call error: %s" [text]%list)
  else
    lift (_parse_qubesd_response (stdout out)).
End Decoder.

End QubesRemote.

(** ** class VMCollection *)

Module VMCollection.

(** The properties of one VM and the cache of all of them, as built by
    [refresh_cache]. *)
Definition vm_props := dict pyval.
Definition vm_map := dict vm_props.

(** The object [qubesmgmt.vm.QubesVM(app, name, klass)] returns; the class
    lives outside this module, the record keeps what it is built from. *)
Record QubesVM := {
  vm_name : pyval;
  vm_class : pyval
}.

(** One invocation of the application's [_do_qubesd_call]. *)
Record request := {
  req_dest : str;
  req_method : str;
  req_arg : option str;
  req_payload : option bytes
}.

(** The loop of [refresh_cache] over the lines of the listing. *)
Fixpoint build_vm_list (lines : list bytes) (new_vm_list : vm_map)
  : result vm_map :=
  match lines with
  | [] => Ret new_vm_list
  | vm_data :: rest =>
      match bytes_split x20 (Some 1) vm_data with
      | [vm_name; props] =>
          let props := bytes_split x20 None props in
          match dict_of_seq (map (bytes_split x3d (Some 1)) props) [] with
          | Ret d =>
              build_vm_list rest (dict_set (PBytes vm_name) d new_vm_list)
          | Raise e => Raise e
          end
      | _ => Raise ValueError
      end
  end.

Section App.
(** The application object: its transport state and its
    [_do_qubesd_call], either of the two transports or a test double. *)
Variable World : Type.
Variable app_do_qubesd_call :
  str -> str -> option str -> option bytes -> M World bytes.

(** [self]: the cache, the application it talks to, and the list of the
    calls it has issued. *)
Record collection := {
  _vm_list : option vm_map;
  app : World;
  calls : list request
}.

Definition __init__ (w : World) : collection :=
  {| _vm_list := None; app := w; calls := [] |}.

(** [self.app._do_qubesd_call(dest, method)], with [arg] and [payload]
    left at their default [None]. *)
Definition call_app (dest method : str) : M collection bytes :=
  fun self =>
    let (r, w) := app_do_qubesd_call dest method None None (app self) in
    (r, {| _vm_list := _vm_list self;
           app := w;
           calls := calls self ++
                    [{| req_dest := dest; req_method := method;
                        req_arg := None; req_payload := None |}] |}).

Definition set_vm_list (m : vm_map) : M collection unit :=
  fun self =>
    (Ret tt, {| _vm_list := Some m; app := app self;
                calls := calls self |}).

Local Open Scope py_scope.

Definition refresh_cache (force : bool) : M collection unit :=
  fun self =>
    if negb force && match _vm_list self with Some _ => true | None => false end
    then (Ret tt, self)
    else
      (vm_list_data <- call_app "dom0" "mgmt.vm.List" ;;
       new_vm_list <- lift (build_vm_list (splitlines vm_list_data) []) ;;
       set_vm_list new_vm_list) self.

Definition __contains__ (item : pyval) : M collection bool :=
  refresh_cache false ;;
  fun self =>
    match _vm_list self with
    | Some m => (Ret (dict_contains item m), self)
    | None => (Raise TypeError, self)
    end.

Definition __getitem__ (item : pyval) : M collection QubesVM :=
  present <- __contains__ item ;;
  if negb present then raise (KeyError item)
  else
    fun self =>
      match _vm_list self with
      | Some m =>
          match dict_index m item with
          | Ret props =>
              match dict_index props (PStr "class") with
              | Ret klass =>
                  (Ret {| vm_name := item; vm_class := klass |}, self)
              | Raise e => (Raise e, self)
              end
          | Raise e => (Raise e, self)
          end
      | None => (Raise TypeError, self)
      end.

(** [self[vm]] for each [vm] in turn, as a consumer of the generator
    sees it. *)
Fixpoint yield_each (names : list pyval) : M collection (list QubesVM) :=
  match names with
  | [] => ret []
  | vm :: rest =>
      item <- __getitem__ vm ;;
      items <- yield_each rest ;;
      ret (item :: items)
  end.

Definition __iter__ : M collection (list QubesVM) :=
  refresh_cache false ;;
  fun self =>
    match _vm_list self with
    | Some m => yield_each (dict_keys m) self
    | None => (Raise TypeError, self)
    end.

Definition keys : M collection (list pyval) :=
  refresh_cache false ;;
  fun self =>
    match _vm_list self with
    | Some m => (Ret (dict_keys m), self)
    | None => (Raise AttributeError, self)
    end.
End App.

Arguments _vm_list {World} c.
Arguments app {World} c.
Arguments calls {World} c.

End VMCollection.

(** ** Test doubles used in the examples *)

(** A socket on which the daemon delivers [chunks] and then closes. *)
Definition daemon_socket (chunks : list bytes) : QubesLocal.channel :=
  {| QubesLocal.connect_error := None;
     QubesLocal.connects := [];
     QubesLocal.sent := [];
     QubesLocal.inbox := chunks;
     QubesLocal.recvs := 0 |}.

(** A socket nobody listens on: [connect] fails with [e]. *)
Definition dead_socket (e : exn) : QubesLocal.channel :=
  {| QubesLocal.connect_error := Some e;
     QubesLocal.connects := [];
     QubesLocal.sent := [];
     QubesLocal.inbox := [];
     QubesLocal.recvs := 0 |}.

(** A host whose proxy always prints [out] and [err] and exits with [code]. *)
Definition stub_host (out err : bytes) (code : Z) : QubesRemote.host :=
  {| QubesRemote.spawn_error := fun _ => None;
     QubesRemote.run := fun _ _ =>
       {| QubesRemote.stdout := out;
          QubesRemote.stderr := err;
          QubesRemote.returncode := code |};
     QubesRemote.trace := [] |}.

(** An application double that answers every call with [response] and counts
    the calls in its state. *)
Definition canned_app (response : result bytes)
  : str -> str -> option str -> option bytes -> M nat bytes :=
  fun _ _ _ _ n => (response, Datatypes.S n).

(** The listing of the two-VM scenario. *)
Definition two_vm_listing : bytes :=
  bytes_of "vm1 class=AppVM state=running" ++ [x0a] ++
  bytes_of "vm2 class=TemplateVM state=halted" ++ [x0a].

(** ** Vocabulary of the statements *)

Definition ascii_text (s : str) : Prop :=
  forallb is_ascii (list_byte_of_string s) = true.

Definition nul_free (s : str) : Prop := ~ In x00 (list_byte_of_string s).

(** The chunks written for a list of fields: each one, then one NUL. *)
Definition framed (fields : list bytes) : list bytes :=
  flat_map (fun field => [field; [x00]]) fields.

(** The socket after a [connect] attempt, and after some more writes. *)
Definition connected (ch : QubesLocal.channel) : QubesLocal.channel :=
  {| QubesLocal.connect_error := QubesLocal.connect_error ch;
     QubesLocal.connects := QubesLocal.connects ch ++ [QUBESD_SOCK];
     QubesLocal.sent := QubesLocal.sent ch;
     QubesLocal.inbox := QubesLocal.inbox ch;
     QubesLocal.recvs := QubesLocal.recvs ch |}.

Definition pushed (chunks : list bytes) (ch : QubesLocal.channel)
  : QubesLocal.channel :=
  {| QubesLocal.connect_error := QubesLocal.connect_error ch;
     QubesLocal.connects := QubesLocal.connects ch;
     QubesLocal.sent := QubesLocal.sent ch ++ chunks;
     QubesLocal.inbox := QubesLocal.inbox ch;
     QubesLocal.recvs := QubesLocal.recvs ch |}.

Definition payload_chunks (payload : option bytes) : list bytes :=
  match payload with
  | Some data => [data]
  | None => []
  end.

(** One turn of the field loop of [QubesLocal._do_qubesd_call]. *)
Definition send_field (call_arg : pyval) : M QubesLocal.channel unit :=
  bind (lift (encode_ascii call_arg))
       (fun encoded =>
          bind (QubesLocal.sendall encoded)
               (fun _ => QubesLocal.sendall [x00])).

Definition payload_bytes (payload : option bytes) : bytes :=
  match payload with
  | Some data => data
  | None => []
  end.

(** The one request [refresh_cache] issues. *)
Definition entity_list_request : VMCollection.request :=
  {| VMCollection.req_dest := "dom0";
     VMCollection.req_method := "mgmt.vm.List";
     VMCollection.req_arg := None;
     VMCollection.req_payload := None |}.

(** The name a listing line starts with: what precedes its first space. *)
Definition line_name (line : bytes) : pyval :=
  PBytes (hd [] (bytes_split x20 (Some 1) line)).

(** The key list of a dict after an assignment to [k]. *)
Definition add_key (k : pyval) (ks : list pyval) : list pyval :=
  if existsb (py_eqb k) ks then ks else ks ++ [k].

Definition names_of (lines : list bytes) (ks : list pyval) : list pyval :=
  fold_left (fun acc line => add_key (line_name line) acc) lines ks.

Definition is_bytes (v : pyval) : bool :=
  match v with
  | PBytes _ => true
  | _ => false
  end.

Definition bytes_keyed {V} (d : dict V) : Prop :=
  Forall (fun entry => is_bytes (fst entry) = true) d.

(** Every VM name and every property name of the map is a [bytes] object. *)
Definition cache_bytes_keyed (m : VMCollection.vm_map) : Prop :=
  bytes_keyed m /\ Forall (fun entry => bytes_keyed (snd entry)) m.

Definition cache_invariant {World} (self : VMCollection.collection World)
  : Prop :=
  match VMCollection._vm_list self with
  | None => True
  | Some m => cache_bytes_keyed m
  end.

(** A computation that keeps a property of the state, however it ends. *)
Definition preserves {S A} (P : S -> Prop) (m : M S A) : Prop :=
  forall s, P s -> P (snd (m s)).

Definition populated {World} (self : VMCollection.collection World) : bool :=
  match VMCollection._vm_list self with
  | Some _ => true
  | None => false
  end.

(** The collection of the two-VM scenario, before and after a forced
    refresh against an application that returns [two_vm_listing]. *)
Definition two_vm_app := canned_app (Ret two_vm_listing).

Definition fresh_collection : VMCollection.collection nat :=
  VMCollection.__init__ nat 0.

Definition two_vm_collection : VMCollection.collection nat :=
  snd (VMCollection.refresh_cache nat two_vm_app true fresh_collection).

(** What an exception raised by the Remote transport holds of the captured
    error stream: the text argument of a [QubesException], or the object a
    decoding error was raised on. *)
Definition error_stream_of (e : exn) : option bytes :=
  match e with
  | QubesException _ [text] => Some (list_byte_of_string text)
  | UnicodeDecodeError object => Some object
  | _ => None
  end.

(** The same host, except that its proxy prints [printed] on its output
    stream. *)
Definition with_stdout (printed : bytes) (h : QubesRemote.host)
  : QubesRemote.host :=
  {| QubesRemote.spawn_error := QubesRemote.spawn_error h;
     QubesRemote.run := fun argv input =>
       {| QubesRemote.stdout := printed;
          QubesRemote.stderr :=
            QubesRemote.stderr (QubesRemote.run h argv input);
          QubesRemote.returncode :=
            QubesRemote.returncode (QubesRemote.run h argv input) |};
     QubesRemote.trace := QubesRemote.trace h |}.

(** ** More vocabulary: listing lines *)

Definition has_byte (c : byte) (data : bytes) : bool :=
  existsb (Byte.eqb c) data.

(** What follows the first occurrence of [c] in [data] (nothing when [c]
    does not occur). *)
Fixpoint after_first (c : byte) (data : bytes) : bytes :=
  match data with
  | [] => []
  | x :: rest => if Byte.eqb x c then rest else after_first c rest
  end.

(** The property tokens of a listing line: the space-separated pieces that
    follow the name. *)
Definition line_tokens (line : bytes) : list bytes :=
  bytes_split x20 None (after_first x20 line).

(** A line the parsing loop accepts: it has a space, and every token after the
    name has an equals sign. *)
Definition well_formed_line (line : bytes) : bool :=
  has_byte x20 line && forallb (has_byte x3d) (line_tokens line).

(** The property dict the loop builds for one line. *)
Definition line_props (line : bytes) : result (dict pyval) :=
  dict_of_seq (map (bytes_split x3d (Some 1)) (line_tokens line)) [].

(** [s.split(sep, maxsplit)] on text, for a one-character ASCII separator. *)
Definition str_split (sep : byte) (maxsplit : option nat) (s : str)
  : list str :=
  map string_of_list_byte (bytes_split sep maxsplit (list_byte_of_string s)).

(** The collection over each of the two transports. *)
Definition local_collection (ch : QubesLocal.channel)
  : VMCollection.collection QubesLocal.channel :=
  VMCollection.__init__ QubesLocal.channel ch.

Definition entity_list_argv : list str :=
  ["qrexec-client-vm"; "dom0"; "mgmt.vm.List"].

(** The key of a property token: what precedes its first equals sign. *)
Definition token_key (token : bytes) : pyval :=
  PBytes (hd [] (bytes_split x3d (Some 1) token)).

(** A listing with a blank line between its two entries. *)
Definition blank_line_listing : bytes :=
  bytes_of "vm1 class=AppVM" ++ [x0a; x0a] ++ bytes_of "vm2 class=AppVM".

(** An outcome of a collection operation: an exception, the cache left
    unpopulated. *)
Definition raises_unpopulated {World A}
           (r : result A * VMCollection.collection World) : Prop :=
  (exists e, fst r = Raise e) /\ VMCollection._vm_list (snd r) = None.

(** A method name that is not ASCII: ["qubes."] followed by U+00E9. *)
Definition non_ascii_method : str :=
  string_of_list_byte (bytes_of "qubes." ++ [xc3; xa9]).

(** * qubesadmin.tools.qvm_device *)

(** ** More built-ins *)

(** [except ValueError]: the Unicode errors are subclasses of it. *)
Definition is_ValueError (e : exn) : bool :=
  match e with
  | ValueError | UnicodeEncodeError | UnicodeDecodeError _ => true
  | _ => false
  end.

Definition is_KeyError (e : exn) : bool :=
  match e with
  | KeyError _ => true
  | _ => false
  end.

(** [try: body / except C: handler], with [C] given by [caught]. *)
Definition try_except {S A} (caught : exn -> bool) (body : M S A)
           (handler : exn -> M S A) : M S A :=
  fun s =>
    match body s with
    | (Ret a, s') => (Ret a, s')
    | (Raise e, s') => if caught e then handler e s' else (Raise e, s')
    end.

(** [a, b = items]: anything but two items raises [ValueError]. *)
Definition unpack2 {A} (items : list A) : result (A * A) :=
  match items with
  | [a; b0] => Ret (a, b0)
  | _ => Raise ValueError
  end.

(** [dict(items)] for sequences of text. *)
Fixpoint dict_of_str_seq (items : list (list str)) (acc : dict pyval)
  : result (dict pyval) :=
  match items with
  | [] => Ret acc
  | [k; v] :: rest => dict_of_str_seq rest (dict_set (PStr k) (PStr v) acc)
  | _ :: _ => Raise ValueError
  end.

(** [os.path.basename]: what follows the last slash. *)
Definition basename (path : str) : str :=
  string_of_list_byte
    (last (bytes_split x2f None (list_byte_of_string path)) []).

(** A row of the device table and the order [sorted] puts rows in: tuples
    compare at their first differing component, text by code units. *)
Definition row : Type := str * str * str.

Definition row_ltb (x y : row) : bool :=
  let '(x1, x2, x3) := x in
  let '(y1, y2, y3) := y in
  if negb (String.eqb x1 y1) then String.ltb x1 y1
  else if negb (String.eqb x2 y2) then String.ltb x2 y2
  else String.ltb x3 y3.

(** [sorted(rows)]: a stable sort that only asks whether one row is less
    than another; each row goes before the first row greater than it. *)
Fixpoint insert_row (x : row) (rows : list row) : list row :=
  match rows with
  | [] => [x]
  | y :: rest => if row_ltb x y then x :: rows else y :: insert_row x rest
  end.

Definition sorted (rows : list row) : list row :=
  fold_left (fun acc x => insert_row x acc) rows [].

Module qvm_device.

(** What this module reads of a [qubesadmin.devices.Device] or
    [DeviceInfo]; [backend_domain] is the domain as [str()] shows it, its
    name.  The classes live in [qubesadmin.devices]. *)
Module Device.
Record t := {
  backend_domain : str;
  ident : str;
  description : str
}.
End Device.

(** class Line *)
Module Line.
Record t := {
  ident : str;
  description : str;
  attached_to : str;
  frontends : list str
}.

Definition __init__ (device : Device.t) (attached_to : option str) : t :=
  {| ident := Device.backend_domain device ++ ":" ++ Device.ident device;
     description := Device.description device;
     attached_to := match attached_to with
                    | Some "" => ""
                    | Some s => s
                    | None => ""
                    end;
     frontends := [] |}%string.

Definition assignments (self : t) : str :=
  String.concat ", " (frontends self).
End Line.

Definition table_header : row := ("BACKEND:DEVID", "DESCRIPTION", "USED BY").

Definition prepare_table (isatty : bool) (dev_list : list Line.t) : list row :=
  let output := [] in
  let header := [] in
  let header := if isatty then header ++ [table_header] else header in
  let output :=
    fold_left
      (fun output line =>
         output ++
         [(Line.ident line, Line.description line, Line.assignments line)])
      dev_list output in
  header ++ sorted output.

(** What this module sets on a [qubesadmin.devices.DeviceAssignment]: the two
    constructor arguments, and the attributes assigned afterwards ([None]
    while an attribute is as the constructor left it). *)
Module DeviceAssignment.
Record t := {
  backend_domain : str;
  ident : str;
  options : option (dict pyval);
  required : option bool;
  attach_automatically : option bool
}.

Definition __init__ (backend_domain ident : str) : t :=
  {| backend_domain := backend_domain;
     ident := ident;
     options := None;
     required := None;
     attach_automatically := None |}.

Definition set_options (o : dict pyval) (a : t) : t :=
  {| backend_domain := backend_domain a; ident := ident a;
     options := Some o; required := required a;
     attach_automatically := attach_automatically a |}.

Definition set_required (r : bool) (a : t) : t :=
  {| backend_domain := backend_domain a; ident := ident a;
     options := options a; required := Some r;
     attach_automatically := attach_automatically a |}.

Definition set_attach_automatically (v : bool) (a : t) : t :=
  {| backend_domain := backend_domain a; ident := ident a;
     options := options a; required := required a;
     attach_automatically := Some v |}.
End DeviceAssignment.

(** The methods of [vm.devices[devclass]] this module calls, each on the
    domain [vm] and the device class [devclass]. *)
Inductive request :=
| Attach (vm devclass : str) (assignment : DeviceAssignment.t)
| Assign (vm devclass : str) (assignment : DeviceAssignment.t)
| Detach (vm devclass : str) (assignment : DeviceAssignment.t)
| Unassign (vm devclass : str) (assignment : DeviceAssignment.t)
| GetAttachedDevices (vm devclass : str)
| GetAssignedDevices (vm devclass : str).

(** The daemon behind those methods: what it answers to a request, given the
    requests made so far (an exception when it refuses, the assignments
    listed for the two [get_] methods), and the record of the requests. *)
Record daemon := {
  respond : list request -> request -> result (list DeviceAssignment.t);
  history : list request
}.

Definition perform (rq : request) : M daemon (list DeviceAssignment.t) :=
  fun d =>
    (respond d (history d) rq,
     {| respond := respond d; history := history d ++ [rq] |}).

(** The parsed arguments the four commands read.  [domains] holds the one
    domain [VMNAME] (declared with [nargs=1]) stands for; [device] is [None]
    when the optional [BACKEND:DEVICE_ID] was left out, and a device object
    counts as true; [option_], the
    attribute [option], is [None] when no [--option] was given. *)
Record args := {
  domains : str;
  devclass : str;
  device : option Device.t;
  option_ : option (list str);
  ro : bool;
  required : bool
}.

Local Open Scope py_scope.

(** [dict(opt.split('=', 1) for opt in args.option or [])], then the
    [read-only] entry when [args.ro] is set: lines 140-142 and 174-176. *)
Definition options_of (a : args) : result (dict pyval) :=
  match dict_of_str_seq
          (map (str_split x3d (Some 1))
               (match option_ a with
                | Some [] => []
                | Some given => given
                | None => []
                end)) [] with
  | Ret options =>
      Ret (if ro a
           then dict_set (PStr "read-only") (PStr "yes") options
           else options)
  | Raise e => Raise e
  end.

(** [args.device.backend_domain]: on [None] the attribute access fails. *)
Definition assignment_of (device : option Device.t)
  : result DeviceAssignment.t :=
  match device with
  | Some dev =>
      Ret (DeviceAssignment.__init__ (Device.backend_domain dev)
                                     (Device.ident dev))
  | None => Raise AttributeError
  end.

Definition attach_device (a : args) : M daemon unit :=
  let vm := domains a in
  device_assignment <- lift (assignment_of (device a)) ;;
  options <- lift (options_of a) ;;
  let device_assignment :=
    DeviceAssignment.set_options options device_assignment in
  perform (Attach vm (devclass a) device_assignment) ;;
  if required a then
    let device_assignment :=
      DeviceAssignment.set_required (required a) device_assignment in
    perform (Assign vm (devclass a) device_assignment) ;;
    ret tt
  else ret tt.


Definition assign_device (a : args) : M daemon unit :=
  let vm := domains a in
  device_assignment <- lift (assignment_of (device a)) ;;
  options <- lift (options_of a) ;;
  let device_assignment :=
    DeviceAssignment.set_attach_automatically true device_assignment in
  let device_assignment :=
    DeviceAssignment.set_required (required a) device_assignment in
  let device_assignment :=
    DeviceAssignment.set_options options device_assignment in
  perform (Assign vm (devclass a) device_assignment) ;; ret tt.


(** class DeviceAction *)
Module DeviceAction.

(** The three messages [parse_qubes_app] reports, by what they quote:
    ["no backend vm {!r}"], ["backend vm {!r} doesn't expose device {!r}"]
    and ["expected a backend vm & device id combination like foo:bar got
    %s"]. *)
Inductive message :=
| NoBackendVm (vmname : str)
| DoesNotExpose (vmname device_id : str)
| ExpectedCombination (got : str).

(** What [namespace.<dest>] holds: [None], the text from the command line,
    or the [Device(vm, device_id)] put there ([vm] is [None] when no domain
    was found). *)
Inductive dest_value :=
| DestNone
| DestText (backend_device_id : str)
| DestDevice (vm : option str) (device_id : str).

Inductive event :=
| DomainLookup (vmname : str)
| DeviceLookup (vm devclass device_id : str)
| Error (m : message)
| ErrorRuntime (m : message).

(** The surroundings of the action: [app.domains[vmname]],
    [vm.devices[devclass][device_id]] (telling whether the device found is
    an [UnknownDevice]), the two error methods of the parser, all defined
    elsewhere; the namespace attribute; and the record of what was called. *)
Record world := {
  domain : str -> result str;
  device_unknown : str -> str -> str -> result bool;
  error : message -> result unit;
  error_runtime : message -> result unit;
  dest : dest_value;
  events : list event
}.

Definition note (ev : event) (w : world) : world :=
  {| domain := domain w; device_unknown := device_unknown w;
     error := error w; error_runtime := error_runtime w;
     dest := dest w; events := events w ++ [ev] |}.

Definition setattr_dest (v : dest_value) : M world unit :=
  fun w =>
    (Ret tt, {| domain := domain w; device_unknown := device_unknown w;
                error := error w; error_runtime := error_runtime w;
                dest := v; events := events w |}).

Definition lookup_domain (vmname : str) : M world str :=
  fun w => (domain w vmname, note (DomainLookup vmname) w).

(** [vm.devices[devclass][device_id]]; [None] has no attribute
    [devices]. *)
Definition lookup_device (vm : option str) (devclass device_id : str)
  : M world bool :=
  match vm with
  | Some v =>
      fun w => (device_unknown w v devclass device_id,
                note (DeviceLookup v devclass device_id) w)
  | None => raise AttributeError
  end.

Definition parser_error (m : message) : M world unit :=
  fun w => (error w m, note (Error m) w).

Definition parser_error_runtime (m : message) : M world unit :=
  fun w => (error_runtime w m, note (ErrorRuntime m) w).

Definition parse_qubes_app (allow_unknown : bool) (devclass : str)
  : M world unit :=
  fun w =>
    match dest w with
    | DestNone => (Ret tt, w)
    | DestDevice _ _ => (Raise AttributeError, w)
    | DestText backend_device_id =>
        try_except is_ValueError
          (pair <- lift (unpack2 (str_split x3a (Some 1) backend_device_id)) ;;
           let '(vmname, device_id) := pair in
           vm <- try_except is_KeyError
                   (v <- lookup_domain vmname ;; ret (Some v))
                   (fun _ =>
                      parser_error_runtime (NoBackendVm vmname) ;;
                      ret None) ;;
           try_except is_KeyError
             (unknown <- lookup_device vm devclass device_id ;;
              if negb allow_unknown && unknown
              then raise (KeyError (PStr device_id))
              else ret tt)
             (fun _ =>
                parser_error_runtime (DoesNotExpose vmname device_id)) ;;
           setattr_dest (DestDevice vm device_id))
          (fun _ => parser_error (ExpectedCombination backend_device_id))
          w
    end.
End DeviceAction.

(** What [main] shows and starts. *)
Inductive main_event :=
| Print (text : str)
| GetParser (device_class : option str)
| ParseArgs
| RunFunc
| PrintError (e : exn).

(** The process [main] runs in: [sys.argv], and the outcome of what it
    calls outside this module: [qubesadmin.Qubes().list_deviceclass()],
    [parser.parse_args] (for the parser of the given class), the command
    [args.func(args)], and whether an exception is a [QubesException]. *)
Record process := {
  argv0 : str;
  argv_rest : list str;
  list_deviceclass : result (list str);
  parse_args : option str -> result unit;
  func : result unit;
  is_QubesException : exn -> bool;
  shown : list main_event
}.

Definition show (ev : main_event) (p : process) : process :=
  {| argv0 := argv0 p; argv_rest := argv_rest p;
     list_deviceclass := list_deviceclass p; parse_args := parse_args p;
     func := func p; is_QubesException := is_QubesException p;
     shown := shown p ++ [ev] |}.

Definition emit {A} (ev : main_event) (r : result A) : M process A :=
  fun p => (r, show ev p).

Definition newline : str := String (ascii_of_nat 10) "".

(** The first lines of [main]: the device class the program name stands
    for. *)
Definition devclass_of (argv_0 : str) : option str :=
  let basename := basename argv_0 in
  let devclass := None in
  if String.prefix "qvm-" basename && negb (String.eqb basename "qvm-device")
  then Some (String.substring 4 (String.length basename - 4) basename)
  else devclass.

Definition wants_class_list (curr_action : list str) : bool :=
  existsb (fun a => String.eqb a "--list-device-classes" ||
                    String.eqb a "--list-classes") curr_action.

Definition main : M process Z :=
  fun p =>
    let devclass := devclass_of (argv0 p) in
    let curr_action := argv_rest p in
    if wants_class_list curr_action then
      (classes <- lift (list_deviceclass p) ;;
       emit (Print (String.concat newline classes)) (Ret tt) ;;
       ret 0%Z) p
    else
      (emit (GetParser devclass) (Ret tt) ;;
       emit ParseArgs (parse_args p devclass) ;;
       try_except (is_QubesException p)
         (emit RunFunc (func p) ;; ret 0%Z)
         (fun e => emit (PrintError e) (Ret tt) ;; ret 1%Z)) p.

End qvm_device.

(** ** Vocabulary for the device tool *)

(** The table row of a line. *)
Definition row_of (line : qvm_device.Line.t) : row :=
  (qvm_device.Line.ident line, qvm_device.Line.description line,
   qvm_device.Line.assignments line).

(** [x <= y] on rows, in terms of the comparison [sorted] uses. *)
Definition row_le (x y : row) : Prop := row_ltb y x = false.

Definition table_head (isatty : bool) : list row :=
  if isatty then [qvm_device.table_header] else [].

(** Two device lines and a request for the examples. *)
Definition sda_line : qvm_device.Line.t :=
  qvm_device.Line.__init__
    {| qvm_device.Device.backend_domain := "sys-usb";
       qvm_device.Device.ident := "sda";
       qvm_device.Device.description := "Flash disk" |} None.

Definition mic_line : qvm_device.Line.t :=
  qvm_device.Line.__init__
    {| qvm_device.Device.backend_domain := "dom0";
       qvm_device.Device.ident := "mic";
       qvm_device.Device.description := "Microphone" |} (Some "work").

Definition sda_device : qvm_device.Device.t :=
  {| qvm_device.Device.backend_domain := "sys-usb";
     qvm_device.Device.ident := "sda";
     qvm_device.Device.description := "Flash disk" |}.

(** A daemon that accepts every request and lists [listed]. *)
Definition willing_daemon (listed : list qvm_device.DeviceAssignment.t)
  : qvm_device.daemon :=
  {| qvm_device.respond := fun _ rq =>
       match rq with
       | qvm_device.GetAttachedDevices _ _ => Ret listed
       | qvm_device.GetAssignedDevices _ _ => Ret listed
       | _ => Ret []
       end;
     qvm_device.history := [] |}.

(** [attach work sys-usb:sda -o read-only=no --ro -p]. *)
Definition attach_args : qvm_device.args :=
  {| qvm_device.domains := "work";
     qvm_device.devclass := "block";
     qvm_device.device := Some sda_device;
     qvm_device.option_ := Some ["read-only=no"];
     qvm_device.ro := true;
     qvm_device.required := true |}.

(** The assignment a command builds for [args.device] and its options. *)
Definition assignment_with (dev : qvm_device.Device.t) (o : dict pyval)
  : qvm_device.DeviceAssignment.t :=
  qvm_device.DeviceAssignment.set_options o
    (qvm_device.DeviceAssignment.__init__
       (qvm_device.Device.backend_domain dev) (qvm_device.Device.ident dev)).

(** The options given on the command line, [args.option or []]. *)
Definition given_options (a : qvm_device.args) : list str :=
  match qvm_device.option_ a with
  | Some given => given
  | None => []
  end.



Definition known_world (value : qvm_device.DeviceAction.dest_value)
  : qvm_device.DeviceAction.world :=
  {| qvm_device.DeviceAction.domain := fun vmname => Ret vmname;
     qvm_device.DeviceAction.device_unknown := fun _ _ _ => Ret false;
     qvm_device.DeviceAction.error := fun _ => Raise (OSError 2);
     qvm_device.DeviceAction.error_runtime := fun _ => Raise (OSError 1);
     qvm_device.DeviceAction.dest := value;
     qvm_device.DeviceAction.events := [] |}.

(** The world after [parse_qubes_app] has resolved [vmname:device_id]. *)
Definition resolved (w : qvm_device.DeviceAction.world)
           (vmname vm devclass device_id : str)
  : qvm_device.DeviceAction.world :=
  {| qvm_device.DeviceAction.domain := qvm_device.DeviceAction.domain w;
     qvm_device.DeviceAction.device_unknown :=
       qvm_device.DeviceAction.device_unknown w;
     qvm_device.DeviceAction.error := qvm_device.DeviceAction.error w;
     qvm_device.DeviceAction.error_runtime :=
       qvm_device.DeviceAction.error_runtime w;
     qvm_device.DeviceAction.dest :=
       qvm_device.DeviceAction.DestDevice (Some vm) device_id;
     qvm_device.DeviceAction.events :=
       qvm_device.DeviceAction.events w ++
       [qvm_device.DeviceAction.DomainLookup vmname;
        qvm_device.DeviceAction.DeviceLookup vm devclass device_id] |}.

(** A run of [qvm-block] in which the command raises [outcome]. *)
Definition block_process (rest : list str) (outcome : result unit)
  : qvm_device.process :=
  {| qvm_device.argv0 := "/usr/bin/qvm-block";
     qvm_device.argv_rest := rest;
     qvm_device.list_deviceclass := Ret ["block"; "usb"];
     qvm_device.parse_args := fun _ => Ret tt;
     qvm_device.func := outcome;
     qvm_device.is_QubesException := fun e =>
       match e with
       | QubesException _ _ => true
       | _ => false
       end;
     qvm_device.shown := [] |}.


(** ** Properties of the built-ins *)

Lemma py_eqb_eq (x y : pyval) : py_eqb x y = true <-> x = y.
Proof.
  destruct x as [|s|s], y as [|t|t]; simpl; split; intro H;
    try reflexivity; try discriminate.
  - apply String.eqb_eq in H. now subst.
  - injection H as ->. apply String.eqb_refl.
  - unfold bytes_eqb in H.
    destruct (list_eq_dec Byte.byte_eq_dec s t); [now subst | discriminate].
  - injection H as ->. unfold bytes_eqb.
    destruct (list_eq_dec Byte.byte_eq_dec t t); [reflexivity | contradiction].
Qed.

Lemma py_eqb_refl (x : pyval) : py_eqb x x = true.
Proof. now apply py_eqb_eq. Qed.

Lemma py_eqb_str_bytes (s : str) (data : bytes) :
  py_eqb (PStr s) (PBytes data) = false.
Proof. reflexivity. Qed.

Lemma bytes_split_nonempty sep maxsplit data :
  bytes_split sep maxsplit data <> [].
Proof.
  revert maxsplit. induction data as [|c rest IH]; intro maxsplit; simpl.
  - discriminate.
  - destruct (Byte.eqb c sep && _); [discriminate|].
    destruct (bytes_split sep maxsplit rest) eqn:E; discriminate.
Qed.

(** Splitting a field that holds no separator, followed by the separator,
    peels that field off. *)
Lemma bytes_split_terminated sep field rest :
  ~ In sep field ->
  bytes_split sep None (field ++ sep :: rest) =
  field :: bytes_split sep None rest.
Proof.
  induction field as [|c field IH]; intro Hnot; simpl.
  - rewrite (Byte.byte_dec_lb eq_refl). reflexivity.
  - destruct (Byte.eqb c sep) eqn:E.
    + apply Byte.byte_dec_bl in E. subst c. exfalso. apply Hnot. now left.
    + simpl. rewrite IH; [reflexivity|]. intro Hin. apply Hnot. now right.
Qed.

(** ** The Local transport *)

Section LocalTransport.
Variable parse : bytes -> result bytes.

Import QubesLocal.

Lemma pushed_nil ch : pushed [] ch = ch.
Proof. destruct ch. unfold pushed. simpl. now rewrite app_nil_r. Qed.

Lemma pushed_pushed xs ys ch : pushed ys (pushed xs ch) = pushed (xs ++ ys) ch.
Proof. unfold pushed. simpl. now rewrite app_assoc. Qed.

Lemma sendall_pushed data ch : sendall data ch = (Ret tt, pushed [data] ch).
Proof. reflexivity. Qed.

Lemma send_field_ok v field ch :
  encode_ascii v = Ret field ->
  send_field v ch = (Ret tt, pushed [field; [x00]] ch).
Proof.
  intro H. unfold send_field, bind, lift. rewrite H.
  rewrite !sendall_pushed, pushed_pushed. reflexivity.
Qed.

Lemma send_field_fail v e ch :
  encode_ascii v = Raise e -> send_field v ch = (Raise e, ch).
Proof. intro H. unfold send_field, bind, lift. now rewrite H. Qed.

(** The loop writes the fields it can encode, in order, and stops at the
    first one it cannot. *)
Lemma for_each_fields_ok vs : forall fields ch,
  map encode_ascii vs = map Ret fields ->
  for_each vs send_field ch = (Ret tt, pushed (framed fields) ch).
Proof.
  induction vs as [|v vs IH]; intros [|f fields] ch H; try discriminate.
  - simpl. now rewrite pushed_nil.
  - simpl in H. injection H as Hv Hvs. simpl for_each. unfold bind at 1.
    rewrite (send_field_ok _ _ _ Hv), (IH _ _ Hvs), pushed_pushed.
    reflexivity.
Qed.

Lemma for_each_fields_fail vs v e rest : forall fields ch,
  map encode_ascii vs = map Ret fields ->
  encode_ascii v = Raise e ->
  for_each (vs ++ v :: rest) send_field ch =
  (Raise e, pushed (framed fields) ch).
Proof.
  induction vs as [|u vs IH]; intros [|f fields] ch H Hv; try discriminate.
  - simpl. unfold bind. rewrite (send_field_fail _ _ _ Hv).
    now rewrite pushed_nil.
  - simpl in H. injection H as Hu Hvs. simpl for_each. unfold bind at 1.
    rewrite (send_field_ok _ _ _ Hu), (IH _ _ Hvs Hv), pushed_pushed.
    reflexivity.
Qed.

Lemma encode_ascii_text s :
  ascii_text s -> encode_ascii (PStr s) = Ret (bytes_of s).
Proof. intro H. unfold encode_ascii. now rewrite H. Qed.

Lemma connect_ok ch :
  connect_error ch = None ->
  try_except_IOError_reraise (connect QUBESD_SOCK) ch = (Ret tt, connected ch).
Proof.
  destruct ch; simpl; intros ->. reflexivity.
Qed.

Lemma connect_fails ch e :
  connect_error ch = Some e ->
  try_except_IOError_reraise (connect QUBESD_SOCK) ch = (Raise e, connected ch).
Proof.
  destruct ch; simpl; intros ->.
  unfold try_except_IOError_reraise, connect, connected; simpl.
  now destruct (is_IOError e).
Qed.

(** The call unfolded into its stages. *)
Lemma _do_qubesd_call_stages dest method arg payload ch :
  _do_qubesd_call parse dest method arg payload ch =
  match try_except_IOError_reraise (connect QUBESD_SOCK) ch with
  | (Ret _, ch1) =>
      match for_each [PStr "dom0"; PStr method; PStr dest; of_option arg]
                     send_field ch1 with
      | (Ret _, ch2) =>
          let ch3 := pushed (payload_chunks payload) ch2 in
          match recv BUF_SIZE ch3 with
          | (Ret chunk, ch4) =>
              match iter2 (PBytes chunk) (PBytes []) with
              | Ret items => (parse (bytes_join [] items), ch4)
              | Raise e => (Raise e, ch4)
              end
          | (Raise e, ch4) => (Raise e, ch4)
          end
      | (Raise e, ch2) => (Raise e, ch2)
      end
  | (Raise e, ch1) => (Raise e, ch1)
  end.
Proof.
  unfold _do_qubesd_call, bind at 1.
  destruct (try_except_IOError_reraise (connect QUBESD_SOCK) ch) as [[u|e] ch1];
    [|reflexivity].
  unfold bind at 1. fold send_field.
  destruct (for_each _ send_field ch1) as [[u'|e] ch2]; [|reflexivity].
  unfold bind at 1.
  assert (Hp : match payload with
               | Some data => sendall data
               | None => ret tt
               end ch2
               = (Ret tt, pushed (payload_chunks payload) ch2)).
  { destruct payload; simpl; [reflexivity|].
    unfold ret. now rewrite pushed_nil. }
  rewrite Hp. cbv zeta. unfold bind at 1.
  destruct (recv BUF_SIZE _) as [[chunk|e] ch4]; [|reflexivity].
  unfold bind, lift. simpl. reflexivity.
Qed.
End LocalTransport.

(** Splitting a NUL-framed header at NUL recovers its fields. *)
Lemma split_framed fields :
  Forall (fun field => ~ In x00 field) fields ->
  bytes_split x00 None (List.concat (framed fields)) = fields ++ [[]].
Proof.
  induction 1 as [|field fields Hf _ IH]; [reflexivity|].
  change (framed (field :: fields)) with (field :: [x00] :: framed fields).
  cbn [List.concat app].
  now rewrite bytes_split_terminated, IH.
Qed.

Section LocalClaims.
Variable parse : bytes -> result bytes.

Import QubesLocal.

(** Whatever the arguments and the socket, the call ends in an exception:
    [iter] is handed the bytes of the first [recv], not a callable. *)
Lemma local_call_never_returns dest method arg payload ch :
  exists e, fst (_do_qubesd_call parse dest method arg payload ch) = Raise e.
Proof.
  rewrite _do_qubesd_call_stages.
  destruct (try_except_IOError_reraise _ ch) as [[u|e] ch1]; [|now exists e].
  destruct (for_each _ send_field ch1) as [[u'|e] ch2]; [|now exists e].
  cbv zeta.
  destruct (recv BUF_SIZE _) as [[chunk|e] ch4]; [|now exists e].
  simpl. now exists TypeError.
Qed.

(** With the argument left at [None] the loop stops at the fourth field. *)
Lemma local_call_no_argument dest method payload ch :
  connect_error ch = None -> ascii_text method -> ascii_text dest ->
  _do_qubesd_call parse dest method None payload ch =
  (Raise AttributeError,
   pushed (framed [bytes_of "dom0"; bytes_of method; bytes_of dest])
          (connected ch)).
Proof.
  intros Hc Hm Hd. rewrite _do_qubesd_call_stages, (connect_ok _ Hc).
  change [PStr "dom0"; PStr method; PStr dest; of_option None]
    with ([PStr "dom0"; PStr method; PStr dest] ++ PNone :: []).
  rewrite (for_each_fields_fail _ PNone AttributeError []
             [bytes_of "dom0"; bytes_of method; bytes_of dest]).
  - reflexivity.
  - cbn [map].
    now rewrite (encode_ascii_text "dom0" eq_refl), (encode_ascii_text _ Hm),
      (encode_ascii_text _ Hd).
  - reflexivity.
Qed.

(** With a text argument all four fields and the payload are written. *)
Lemma local_call_writes dest method arg payload ch :
  connect_error ch = None ->
  ascii_text method -> ascii_text dest -> ascii_text arg ->
  sent (snd (_do_qubesd_call parse dest method (Some arg) payload ch)) =
  sent ch ++
  framed [bytes_of "dom0"; bytes_of method; bytes_of dest; bytes_of arg] ++
  payload_chunks payload.
Proof.
  intros Hc Hm Hd Ha. rewrite _do_qubesd_call_stages, (connect_ok _ Hc).
  rewrite (for_each_fields_ok _
             [bytes_of "dom0"; bytes_of method; bytes_of dest; bytes_of arg]).
  2:{ cbn [map of_option].
      now rewrite (encode_ascii_text "dom0" eq_refl), (encode_ascii_text _ Hm),
        (encode_ascii_text _ Hd), (encode_ascii_text _ Ha). }
  cbv zeta. rewrite pushed_pushed.
  unfold recv. destruct (inbox _); reflexivity.
Qed.

(** C9: when [connect] raises, [_do_qubesd_call] raises the same exception
    at once: one connect attempt, nothing written, nothing read. *)
Theorem local_connect_failure_is_surfaced dest method arg payload ch e :
  connect_error ch = Some e ->
  let r := _do_qubesd_call parse dest method arg payload ch in
  fst r = Raise e /\
  connects (snd r) = connects ch ++ [QUBESD_SOCK] /\
  sent (snd r) = sent ch /\
  recvs (snd r) = recvs ch /\
  inbox (snd r) = inbox ch.
Proof.
  intros Hc r. subst r.
  rewrite _do_qubesd_call_stages, (connect_fails _ _ Hc). simpl.
  repeat split.
Qed.

(** C4: for ASCII, NUL-free [method], [dest] and [arg] the call writes
    ["dom0"], [method], [dest], [arg], each followed by one NUL byte, then
    the payload as it is; splitting what precedes the payload at NUL gives
    back the four fields in order (and the empty rest after the last NUL),
    also for an empty [arg]. *)
Theorem local_request_encoding dest method arg payload ch :
  connect_error ch = None ->
  ascii_text method -> ascii_text dest -> ascii_text arg ->
  nul_free method -> nul_free dest -> nul_free arg ->
  let fields :=
    [bytes_of "dom0"; bytes_of method; bytes_of dest; bytes_of arg] in
  let header := List.concat (framed fields) in
  let ch' := snd (_do_qubesd_call parse dest method (Some arg) payload ch) in
  sent ch' = sent ch ++ framed fields ++ payload_chunks payload /\
  wire ch' = wire ch ++ header ++ payload_bytes payload /\
  bytes_split x00 None header = fields ++ [[]].
Proof.
  intros Hc Hm Hd Ha Nm Nd Na fields header ch'.
  assert (Hs : sent ch' = sent ch ++ framed fields ++ payload_chunks payload)
    by now apply local_call_writes.
  split; [exact Hs|]. split.
  - unfold wire. rewrite Hs, !concat_app. f_equal. f_equal.
    destruct payload; simpl; [apply List.app_nil_r | reflexivity].
  - apply split_framed. subst fields.
    repeat constructor; try assumption.
    vm_compute. intuition discriminate.
Qed.
End LocalClaims.

Lemma local_connect_failure_is_surfaced_witness :
  fst (QubesLocal._do_qubesd_call spec_parse_qubesd_response
         "dom0" "mgmt.vm.List" (Some "") None (dead_socket (OSError 111))) =
  Raise (OSError 111).
Proof.
  apply (local_connect_failure_is_surfaced spec_parse_qubesd_response
           "dom0" "mgmt.vm.List" (Some "") None (dead_socket (OSError 111))
           (OSError 111)).
  reflexivity.
Defined.

Lemma local_request_encoding_witness :
  QubesLocal.wire
    (snd (QubesLocal._do_qubesd_call spec_parse_qubesd_response
            "dom0" "mgmt.vm.List" (Some "") (Some (bytes_of "data"))
            (daemon_socket []))) =
  bytes_of "dom0" ++ [x00] ++ bytes_of "mgmt.vm.List" ++ [x00] ++
  bytes_of "dom0" ++ [x00] ++ bytes_of "" ++ [x00] ++ bytes_of "data".
Proof.
  apply (local_request_encoding spec_parse_qubesd_response
           "dom0" "mgmt.vm.List" "" (Some (bytes_of "data"))
           (daemon_socket []));
    try reflexivity; vm_compute; intuition discriminate.
Defined.

(** C1: the entity-list call of the cache, [_do_qubesd_call('dom0',
    'mgmt.vm.List')] with [arg] left at its default [None], writes three
    fields, then raises [AttributeError] on [None.encode]: the argument field
    and its NUL are not written and nothing is read.  A forced refresh of a
    cache over the Local transport fails the same way. *)
Theorem local_entity_list_call_fails
        (parse : bytes -> result bytes) (chunks : list bytes) :
  let r := QubesLocal._do_qubesd_call parse "dom0" "mgmt.vm.List" None None
             (daemon_socket chunks) in
  fst r = Raise AttributeError /\
  QubesLocal.wire (snd r) =
    bytes_of "dom0" ++ [x00] ++ bytes_of "mgmt.vm.List" ++ [x00] ++
    bytes_of "dom0" ++ [x00] /\
  QubesLocal.recvs (snd r) = 0 /\
  fst (VMCollection.refresh_cache QubesLocal.channel
         (QubesLocal._do_qubesd_call parse) true
         (VMCollection.__init__ QubesLocal.channel (daemon_socket chunks))) =
  Raise AttributeError.
Proof.
  assert (H := local_call_no_argument parse "dom0" "mgmt.vm.List" None
                 (daemon_socket chunks) eq_refl eq_refl eq_refl).
  cbv zeta. split; [|split; [|split]].
  - now rewrite H.
  - now rewrite H.
  - now rewrite H.
  - unfold VMCollection.refresh_cache, VMCollection.__init__, bind,
      VMCollection.call_app. cbn [negb andb VMCollection.app].
    now rewrite H.
Qed.

(** C2: a call that does send all four fields reads one chunk and then
    raises [TypeError] from [iter], whatever the decoder is: the rest of the
    response stays unread and nothing is decoded. *)
Theorem local_call_reads_one_chunk_then_fails
        (parse : bytes -> result bytes) (first second : bytes)
        (later : list bytes) :
  let r := QubesLocal._do_qubesd_call parse "dom0" "mgmt.vm.List" (Some "") None
             (daemon_socket ((x30 :: x00 :: first) :: second :: later)) in
  fst r = Raise TypeError /\
  QubesLocal.recvs (snd r) = 1 /\
  exists unread, QubesLocal.inbox (snd r) = unread ++ second :: later.
Proof.
  cbv zeta. rewrite _do_qubesd_call_stages.
  rewrite (connect_ok (daemon_socket _) eq_refl).
  rewrite (for_each_fields_ok _
             [bytes_of "dom0"; bytes_of "mgmt.vm.List"; bytes_of "dom0";
              bytes_of ""]) by reflexivity.
  cbv zeta. unfold QubesLocal.recv.
  cbn [QubesLocal.inbox pushed connected daemon_socket].
  cbn [iter2 fst snd QubesLocal.recvs QubesLocal.inbox].
  split; [reflexivity|]. split; [reflexivity|].
  destruct (skipn BUF_SIZE (x30 :: x00 :: first)) as [|c more].
  - now exists [].
  - now exists [c :: more].
Qed.

(** ** The Remote transport *)

Section RemoteClaims.
Variable parse : bytes -> result bytes.

Import QubesRemote.

(** The call unfolded into its stages. *)
Lemma remote_call_stages dest method arg payload h :
  let argv := ["qrexec-client-vm"; dest; service_name_of method arg] in
  _do_qubesd_call parse dest method arg payload h =
  match spawn_error h argv with
  | Some e => (Raise e, log (Popen argv) h)
  | None =>
      let out := run h argv payload in
      let h' := log (Communicate argv payload) (log (Popen argv) h) in
      if (returncode out =? 0)%Z then (parse (stdout out), h')
      else
        match bytes_decode (stderr out) with
        | Ret text =>
            (Raise (QubesException "Service call error: %s" [text]), h')
        | Raise e => (Raise e, h')
        end
  end.
Proof.
  cbv zeta. unfold _do_qubesd_call, bind at 1, popen.
  destruct (spawn_error h _); [reflexivity|].
  unfold bind at 1, communicate. cbn [run log].
  destruct (returncode _ =? 0)%Z; cbn [negb]; [reflexivity|].
  unfold bind, lift, raise.
  now destruct (bytes_decode _).
Qed.

(** C7: the service name is [method] when [arg] is absent and
    [method + "+" + arg] when it is present; the call starts
    [qrexec-client-vm] with the destination and that service name, and, once
    the process is started, hands it the payload ([None], that is nothing,
    when absent) as its whole input. *)
Theorem remote_call_addresses_proxy dest method arg payload h :
  let service_name :=
    match arg with
    | None => method
    | Some a => (method ++ "+" ++ a)%string
    end in
  let argv := ["qrexec-client-vm"; dest; service_name] in
  service_name_of method arg = service_name /\
  trace (snd (_do_qubesd_call parse dest method arg payload h)) =
  trace h ++ Popen argv ::
    match spawn_error h argv with
    | None => [Communicate argv payload]
    | Some _ => []
    end.
Proof.
  cbv zeta.
  assert (Hn : service_name_of method arg =
               match arg with
               | None => method
               | Some a => (method ++ "+" ++ a)%string
               end) by now destruct arg.
  split; [exact Hn|].
  pose proof (remote_call_stages dest method arg payload h) as H.
  cbv zeta in H. rewrite Hn in H. rewrite H.
  destruct (spawn_error h _); [reflexivity|].
  destruct (returncode _ =? 0)%Z; [|destruct (bytes_decode _)];
    cbn [snd log trace]; now rewrite <- List.app_assoc.
Qed.

End RemoteClaims.

Lemma fst_service_error {S} (data : bytes) (s : S) :
  fst (match bytes_decode data with
       | Ret text =>
           (@Raise bytes (QubesException "Service call error: %s" [text]), s)
       | Raise e => (Raise e, s)
       end) =
  match bytes_decode data with
  | Ret text => Raise (QubesException "Service call error: %s" [text])
  | Raise e => Raise e
  end.
Proof. now destruct (bytes_decode data). Qed.

Lemma error_stream_of_decoded (data : bytes) :
  exists e,
    match bytes_decode data with
    | Ret text => Raise (QubesException "Service call error: %s" [text])
    | Raise e' => @Raise bytes e'
    end = Raise e /\
    error_stream_of e = Some data.
Proof.
  unfold bytes_decode. destruct (utf8_valid data).
  - eexists. split; [reflexivity|]. simpl.
    now rewrite list_byte_of_string_of_list_byte.
  - eexists. split; reflexivity.
Qed.

(** C6: when the proxy exits with a non-zero code the call raises, and what
    it raises is fixed by the error stream alone: the [QubesException] built
    from the format and the decoded error text (the decoding error, which
    holds the raw stream, when that is not UTF-8 text).  The output stream
    and the decoder have no part in it: replacing either leaves the outcome
    as it is.  With exit code zero the result is the decoder applied to the
    output stream. *)
Theorem remote_exit_code_selects_stream
        (parse : bytes -> result bytes) dest method arg payload h :
  let argv :=
    ["qrexec-client-vm"; dest; QubesRemote.service_name_of method arg] in
  let out := QubesRemote.run h argv payload in
  let r := fst (QubesRemote._do_qubesd_call parse dest method arg payload h) in
  QubesRemote.spawn_error h argv = None ->
  (QubesRemote.returncode out <> 0%Z ->
   r = match bytes_decode (QubesRemote.stderr out) with
       | Ret text => Raise (QubesException "Service call error: %s" [text])
       | Raise e => Raise e
       end /\
   (exists e, r = Raise e /\
              error_stream_of e = Some (QubesRemote.stderr out)) /\
   (forall printed parse',
       fst (QubesRemote._do_qubesd_call parse' dest method arg payload
              (with_stdout printed h)) = r)) /\
  (QubesRemote.returncode out = 0%Z -> r = parse (QubesRemote.stdout out)).
Proof.
  cbv zeta. intro Hs.
  pose proof (remote_call_stages parse dest method arg payload h) as H.
  cbv zeta in H. rewrite H, Hs. split; intro Hc.
  - apply Z.eqb_neq in Hc. rewrite Hc.
    rewrite fst_service_error. split; [reflexivity|]. split.
    + apply error_stream_of_decoded.
    + intros printed parse'.
      pose proof (remote_call_stages parse' dest method arg payload
                    (with_stdout printed h)) as H'.
      cbv zeta in H'. rewrite H'.
      cbn [with_stdout QubesRemote.spawn_error QubesRemote.run
             QubesRemote.returncode QubesRemote.stderr].
      rewrite Hs, Hc. apply fst_service_error.
  - rewrite Hc. reflexivity.
Qed.

Lemma remote_exit_code_selects_stream_witness :
  fst (QubesRemote._do_qubesd_call spec_parse_qubesd_response
         "dom0" "mgmt.vm.List" None None
         (stub_host (x30 :: x00 :: bytes_of "ignored")
                    (bytes_of "permission denied") 1)) =
  Raise (QubesException "Service call error: %s" ["permission denied"]).
Proof.
  apply (proj1 (remote_exit_code_selects_stream spec_parse_qubesd_response
                  "dom0" "mgmt.vm.List" None None
                  (stub_host (x30 :: x00 :: bytes_of "ignored")
                             (bytes_of "permission denied") 1)
                  eq_refl)).
  simpl. discriminate.
Defined.

(** ** Dictionaries and the listing parser *)

Lemma dict_keys_set {V} k (v : V) d :
  dict_keys (dict_set k v d) = add_key k (dict_keys d).
Proof.
  unfold add_key. induction d as [|[k' v'] d IH]; simpl; [reflexivity|].
  destruct (py_eqb k k'); simpl; [reflexivity|].
  rewrite IH. now destruct (existsb (py_eqb k) (dict_keys d)).
Qed.

Lemma bytes_keyed_set {V} k (v : V) d :
  bytes_keyed d -> bytes_keyed (dict_set (PBytes k) v d).
Proof.
  unfold bytes_keyed. induction 1 as [|[k' v'] d Hk Hd IH]; cbn [dict_set].
  - now repeat constructor.
  - destruct (py_eqb (PBytes k) k'); constructor; assumption.
Qed.

Lemma dict_set_values {V} (P : V -> Prop) k v (d : dict V) :
  P v -> Forall (fun entry => P (snd entry)) d ->
  Forall (fun entry => P (snd entry)) (dict_set k v d).
Proof.
  intro Hv. induction 1 as [|[k' v'] d Hk Hd IH]; simpl.
  - now repeat constructor.
  - destruct (py_eqb k k'); constructor; assumption.
Qed.

Lemma dict_get_text_in_bytes_keyed {V} s (d : dict V) :
  bytes_keyed d -> dict_get (PStr s) d = None.
Proof.
  induction 1 as [|[k' v'] d Hk Hd IH]; simpl; [reflexivity|].
  destruct k'; try discriminate. exact IH.
Qed.

Lemma dict_get_value {V} (P : V -> Prop) k v (d : dict V) :
  Forall (fun entry => P (snd entry)) d -> dict_get k d = Some v -> P v.
Proof.
  induction 1 as [|[k' v'] d Hk Hd IH]; simpl; [discriminate|].
  destruct (py_eqb k k'); [|exact IH].
  intros [= <-]. exact Hk.
Qed.

Lemma dict_of_seq_bytes_keyed items : forall acc d,
  bytes_keyed acc -> dict_of_seq items acc = Ret d -> bytes_keyed d.
Proof.
  induction items as [|item items IH]; intros acc d Hacc; simpl.
  - now intros [= <-].
  - destruct item as [|k [|v [|x item]]]; try discriminate.
    apply IH. now apply bytes_keyed_set.
Qed.

Lemma dict_of_seq_raises items : forall acc e,
  dict_of_seq items acc = Raise e -> e = ValueError.
Proof.
  induction items as [|item items IH]; intros acc e; simpl; [discriminate|].
  destruct item as [|k [|v [|x item]]]; try (now intros [= <-]).
  apply IH.
Qed.

Import VMCollection.

(** One turn of the parsing loop: the line either adds its entry under its
    name or raises [ValueError]. *)
Lemma build_vm_list_step (line : bytes) (lines : list bytes) acc :
  (exists d,
      bytes_keyed d /\
      In x20 line /\
      build_vm_list (line :: lines) acc =
      build_vm_list lines (dict_set (line_name line) d acc)) \/
  build_vm_list (line :: lines) acc = Raise ValueError.
Proof.
  unfold line_name. simpl.
  destruct (bytes_split x20 (Some 1) line) as [|name [|props [|x more]]] eqn:E;
    try (now right).
  destruct (dict_of_seq _ []) as [d|e] eqn:Ed.
  - left. exists d. split; [|split; [|reflexivity]].
    + eapply dict_of_seq_bytes_keyed; [|exact Ed]. constructor.
    + destruct (in_dec Byte.byte_eq_dec x20 line) as [Hin|Hout]; [exact Hin|].
      exfalso. clear -E Hout.
      assert (H : forall l, ~ In x20 l -> bytes_split x20 (Some 1) l = [l]).
      { induction l as [|c l IHl]; intro Hn; simpl; [reflexivity|].
        destruct (Byte.eqb c x20) eqn:Ec.
        - apply Byte.byte_dec_bl in Ec. subst. exfalso. apply Hn. now left.
        - simpl. rewrite IHl; [reflexivity|]. intro. apply Hn. now right. }
      rewrite (H _ Hout) in E. discriminate.
  - right. now rewrite (dict_of_seq_raises _ _ _ Ed).
Qed.

Lemma build_vm_list_raises (lines : list bytes) : forall acc e,
  build_vm_list lines acc = Raise e -> e = ValueError.
Proof.
  induction lines as [|line lines IH]; intros acc e; [discriminate|].
  destruct (build_vm_list_step line lines acc) as [(d & _ & _ & ->)| ->].
  - apply IH.
  - now intros [= <-].
Qed.

Lemma build_vm_list_bad_line (lines : list bytes) : forall acc (bad : bytes),
  In bad lines -> ~ In x20 bad -> build_vm_list lines acc = Raise ValueError.
Proof.
  induction lines as [|line lines IH]; intros acc bad Hin Hbad; [destruct Hin|].
  destruct (build_vm_list_step line lines acc) as [(d & _ & Hsp & ->)| ->];
    [|reflexivity].
  destruct Hin as [-> |Hin]; [contradiction|]. now apply (IH _ bad).
Qed.

Lemma build_vm_list_keys (lines : list bytes) : forall acc m,
  build_vm_list lines acc = Ret m ->
  dict_keys m = names_of lines (dict_keys acc).
Proof.
  induction lines as [|line lines IH]; intros acc m.
  - now intros [= <-].
  - destruct (build_vm_list_step line lines acc) as [(d & _ & _ & ->)| ->];
      [|discriminate].
    intro H. rewrite (IH _ _ H), dict_keys_set. reflexivity.
Qed.

Lemma build_vm_list_bytes_keyed (lines : list bytes) : forall acc m,
  cache_bytes_keyed acc -> build_vm_list lines acc = Ret m ->
  cache_bytes_keyed m.
Proof.
  induction lines as [|line lines IH]; intros acc m Hacc.
  - now intros [= <-].
  - destruct (build_vm_list_step line lines acc) as [(d & Hd & _ & ->)| ->];
      [|discriminate].
    apply IH. destruct Hacc as [Hk Hv]. split.
    + now apply bytes_keyed_set.
    + now apply (dict_set_values bytes_keyed).
Qed.

(** The key list built from the lines: the names, each once, at its first
    occurrence. *)
Lemma add_key_in k k' ks : In k (add_key k' ks) <-> In k ks \/ k = k'.
Proof.
  unfold add_key. destruct (existsb (py_eqb k') ks) eqn:E.
  - split; [now left|]. intros [H| ->]; [exact H|].
    apply existsb_exists in E. destruct E as (x & Hx & Heq).
    apply py_eqb_eq in Heq. now subst.
  - rewrite in_app_iff. simpl. intuition.
Qed.

Lemma add_key_nodup k ks : NoDup ks -> NoDup (add_key k ks).
Proof.
  intro H. unfold add_key. destruct (existsb (py_eqb k) ks) eqn:E; [exact H|].
  apply NoDup_app; [exact H | repeat constructor; intros [] |].
  intros x Hx [Hk|[]]. subst x.
  assert (existsb (py_eqb k) ks = true)
    by (apply existsb_exists; exists k; split; [exact Hx | apply py_eqb_refl]).
  congruence.
Qed.

Lemma add_key_fresh k ks : ~ In k ks -> add_key k ks = ks ++ [k].
Proof.
  intro H. unfold add_key.
  destruct (existsb (py_eqb k) ks) eqn:E; [|reflexivity].
  apply existsb_exists in E. destruct E as (x & Hx & Heq).
  apply py_eqb_eq in Heq. now subst.
Qed.

Lemma names_of_in lines : forall ks k,
  In k (names_of lines ks) <-> In k ks \/ In k (map line_name lines).
Proof.
  induction lines as [|line lines IH]; intros ks k; simpl.
  - intuition.
  - unfold names_of in *. simpl. rewrite IH, add_key_in. intuition.
Qed.

Lemma names_of_nodup lines : forall ks, NoDup ks -> NoDup (names_of lines ks).
Proof.
  induction lines as [|line lines IH]; intros ks H; [exact H|].
  unfold names_of in *. simpl. apply IH. now apply add_key_nodup.
Qed.

Lemma names_of_distinct lines : forall ks,
  NoDup (ks ++ map line_name lines) ->
  names_of lines ks = ks ++ map line_name lines.
Proof.
  induction lines as [|line lines IH]; intros ks H; simpl.
  - now rewrite List.app_nil_r.
  - unfold names_of in *. simpl.
    rewrite add_key_fresh.
    + rewrite IH; rewrite <- List.app_assoc; [reflexivity | exact H].
    + intro Hin. apply NoDup_remove_2 in H. apply H.
      apply in_or_app. now left.
Qed.

(** ** The VM collection *)

Lemma preserves_bind {S A B} (P : S -> Prop) (m : M S A) (k : A -> M S B) :
  preserves P m -> (forall a, preserves P (k a)) -> preserves P (bind m k).
Proof.
  intros Hm Hk s Hs. unfold bind. specialize (Hm s Hs).
  destruct (m s) as [[a|e] s']; simpl in *; [now apply Hk | exact Hm].
Qed.

Lemma preserves_ret {S A} (P : S -> Prop) (a : A) : preserves P (ret a).
Proof. now intros s Hs. Qed.

Lemma preserves_raise {S A} (P : S -> Prop) e : preserves P (@raise S A e).
Proof. now intros s Hs. Qed.

Section CacheClaims.
Variable World : Type.
Variable call : str -> str -> option str -> option bytes -> M World bytes.

Local Abbreviation refresh_cache := (VMCollection.refresh_cache World call).
Local Abbreviation __contains__ := (VMCollection.__contains__ World call).
Local Abbreviation __getitem__ := (VMCollection.__getitem__ World call).
Local Abbreviation __iter__ := (VMCollection.__iter__ World call).
Local Abbreviation keys := (VMCollection.keys World call).
Local Abbreviation collection := (VMCollection.collection World).

(** [refresh_cache] unfolded into its stages. *)
Lemma refresh_cache_stages force (self : collection) :
  refresh_cache force self =
  if negb force && populated self then (Ret tt, self)
  else
    let (r, w) := call "dom0" "mgmt.vm.List" None None (app self) in
    let issued := calls self ++ [entity_list_request] in
    match r with
    | Ret body =>
        match build_vm_list (splitlines body) [] with
        | Ret m =>
            (Ret tt, {| _vm_list := Some m; app := w; calls := issued |})
        | Raise e =>
            (Raise e,
             {| _vm_list := _vm_list self; app := w; calls := issued |})
        end
    | Raise e =>
        (Raise e, {| _vm_list := _vm_list self; app := w; calls := issued |})
    end.
Proof.
  unfold VMCollection.refresh_cache, populated.
  destruct (negb force && _); [reflexivity|].
  unfold bind at 1, call_app.
  destruct (call _ _ _ _ _) as [[body|e] w]; [|reflexivity].
  unfold bind, lift, set_vm_list.
  now destruct (build_vm_list _ _).
Qed.

Lemma refresh_cache_populated (self : collection) m :
  _vm_list self = Some m -> refresh_cache false self = (Ret tt, self).
Proof.
  intro H. rewrite refresh_cache_stages. unfold populated. now rewrite H.
Qed.

(** After a normal return of [refresh_cache] the cache is populated. *)
Lemma refresh_cache_returns force (self : collection) :
  fst (refresh_cache force self) = Ret tt ->
  exists m, _vm_list (snd (refresh_cache force self)) = Some m.
Proof.
  rewrite refresh_cache_stages. unfold populated.
  destruct (negb force && _) eqn:E.
  - destruct (_vm_list self) as [m|] eqn:Em; [now exists m|].
    now rewrite andb_false_r in E.
  - destruct (call _ _ _ _ _) as [[body|e] w]; [|discriminate].
    destruct (build_vm_list _ _) as [m|e]; [now exists m | discriminate].
Qed.

Lemma refresh_cache_invariant force :
  preserves cache_invariant (refresh_cache force).
Proof.
  intros self Hinv. rewrite refresh_cache_stages.
  destruct (negb force && _); [exact Hinv|].
  destruct (call _ _ _ _ _) as [[body|e] w]; [|exact Hinv].
  destruct (build_vm_list _ _) as [m|e] eqn:E; [|exact Hinv].
  unfold cache_invariant. simpl.
  apply (build_vm_list_bytes_keyed (splitlines body) [] m); [|exact E].
  split; constructor.
Qed.

(** The reads that follow the refresh leave [self] as it is. *)
Lemma __contains___stages item (self : collection) :
  __contains__ item self =
  match refresh_cache false self with
  | (Ret _, self') =>
      match _vm_list self' with
      | Some m => (Ret (dict_contains item m), self')
      | None => (Raise TypeError, self')
      end
  | (Raise e, self') => (Raise e, self')
  end.
Proof.
  unfold VMCollection.__contains__, bind.
  now destruct (refresh_cache false self) as [[u|e] self'].
Qed.

Lemma __contains___populated item (self : collection) m :
  _vm_list self = Some m ->
  __contains__ item self = (Ret (dict_contains item m), self).
Proof.
  intro H. now rewrite __contains___stages, (refresh_cache_populated _ _ H), H.
Qed.

Lemma __contains___state item (self : collection) :
  snd (__contains__ item self) = snd (refresh_cache false self).
Proof.
  rewrite __contains___stages.
  destruct (refresh_cache false self) as [[u|e] self']; [|reflexivity].
  now destruct (_vm_list self').
Qed.

(** A membership test that returns leaves a populated cache behind and
    tells whether the name is a key of it. *)
Lemma __contains___returns item (self : collection) present :
  fst (__contains__ item self) = Ret present ->
  exists m,
    _vm_list (snd (__contains__ item self)) = Some m /\
    present = dict_contains item m.
Proof.
  rewrite __contains___stages.
  destruct (refresh_cache false self) as [[u|e] self']; [|discriminate].
  destruct (_vm_list self') as [m|] eqn:E; [|discriminate].
  simpl. intros [= <-]. now exists m.
Qed.

Lemma __getitem___stages item (self : collection) :
  __getitem__ item self =
  match __contains__ item self with
  | (Ret present, self') =>
      if present then
        match _vm_list self' with
        | Some m =>
            match dict_index m item with
            | Ret props =>
                match dict_index props (PStr "class") with
                | Ret klass =>
                    (Ret {| vm_name := item; vm_class := klass |}, self')
                | Raise e => (Raise e, self')
                end
            | Raise e => (Raise e, self')
            end
        | None => (Raise TypeError, self')
        end
      else (Raise (KeyError item), self')
  | (Raise e, self') => (Raise e, self')
  end.
Proof.
  unfold VMCollection.__getitem__, bind.
  destruct (__contains__ item self) as [[[|]|e] self']; reflexivity.
Qed.

Lemma __getitem___state item (self : collection) :
  snd (__getitem__ item self) = snd (refresh_cache false self).
Proof.
  rewrite <- (__contains___state item), __getitem___stages.
  destruct (__contains__ item self) as [[[|]|e] self']; try reflexivity.
  destruct (_vm_list self') as [m|]; [|reflexivity].
  destruct (dict_index m item) as [props|e]; [|reflexivity].
  now destruct (dict_index props _).
Qed.

Lemma __getitem___invariant item : preserves cache_invariant (__getitem__ item).
Proof.
  intros self H. rewrite __getitem___state. now apply refresh_cache_invariant.
Qed.

Lemma yield_each_invariant names :
  preserves cache_invariant (yield_each World call names).
Proof.
  induction names as [|vm names IH]; simpl.
  - apply preserves_ret.
  - apply preserves_bind; [apply __getitem___invariant|]. intro item.
    apply preserves_bind; [exact IH|]. intro items. apply preserves_ret.
Qed.

Lemma __iter___invariant : preserves cache_invariant __iter__.
Proof.
  unfold VMCollection.__iter__.
  apply preserves_bind; [apply refresh_cache_invariant|].
  intros _ self H. destruct (_vm_list self) as [m|] eqn:E.
  - now apply yield_each_invariant.
  - exact H.
Qed.

Lemma keys_stages (self : collection) :
  keys self =
  match refresh_cache false self with
  | (Ret _, self') =>
      match _vm_list self' with
      | Some m => (Ret (dict_keys m), self')
      | None => (Raise AttributeError, self')
      end
  | (Raise e, self') => (Raise e, self')
  end.
Proof.
  unfold VMCollection.keys, bind.
  now destruct (refresh_cache false self) as [[u|e] self'].
Qed.

Lemma keys_state (self : collection) :
  snd (keys self) = snd (refresh_cache false self).
Proof.
  rewrite keys_stages.
  destruct (refresh_cache false self) as [[u|e] self']; [|reflexivity].
  now destruct (_vm_list self').
Qed.

(** C5: on a populated cache [refresh_cache(False)] does nothing at all: no
    call, same state.  [refresh_cache(True)] issues exactly one call, the
    entity listing, whatever comes of it.  When that call returns a listing
    that parses, [keys()] afterwards issues no further call and returns the
    names the lines start with, each once: all of them and nothing else, and
    exactly the list of the lines' names when these are distinct. *)
Theorem refresh_cache_calls_and_keys (self : collection) :
  (forall m, _vm_list self = Some m ->
             refresh_cache false self = (Ret tt, self)) /\
  (calls (snd (refresh_cache true self)) =
     calls self ++ [entity_list_request] /\
   app (snd (refresh_cache true self)) =
     snd (call "dom0" "mgmt.vm.List" None None (app self))) /\
  (forall body m,
      fst (call "dom0" "mgmt.vm.List" None None (app self)) = Ret body ->
      build_vm_list (splitlines body) [] = Ret m ->
      let self' := snd (refresh_cache true self) in
      let names := map line_name (splitlines body) in
      exists ks,
        keys self' = (Ret ks, self') /\
        (forall k, In k ks <-> In k names) /\
        NoDup ks /\
        (NoDup names -> ks = names)).
Proof.
  split; [apply refresh_cache_populated|]. split.
  - rewrite refresh_cache_stages. cbn [negb andb].
    destruct (call _ _ _ _ _) as [[body|e] w]; [|now split].
    now destruct (build_vm_list _ _).
  - intros body m Hcall Hbuild self' names. subst self'.
    rewrite refresh_cache_stages. cbn [negb andb].
    destruct (call _ _ _ _ _) as [[body'|e] w]; [|discriminate].
    simpl in Hcall. injection Hcall as ->. rewrite Hbuild. cbn [snd].
    exists (dict_keys m). split; [|split; [|split]].
    + rewrite keys_stages.
      match goal with
      | |- context [refresh_cache false ?st] =>
          rewrite (refresh_cache_populated st m) by reflexivity
      end.
      reflexivity.
    + intro k. rewrite (build_vm_list_keys _ _ _ Hbuild), names_of_in.
      simpl. intuition.
    + rewrite (build_vm_list_keys _ _ _ Hbuild).
      apply names_of_nodup. constructor.
    + intro Hnd. rewrite (build_vm_list_keys _ _ _ Hbuild).
      now apply names_of_distinct.
Qed.

(** C8: [refresh_cache] installs a map only after all lines are parsed.
    When it raises, [_vm_list] is what it was before, [None] or the earlier
    map; a line without a space makes it raise [ValueError].  A refresh that
    is due (forced, or on an unpopulated cache) and whose response parses
    returns and replaces the map by the complete parse of that response; and
    a refresh returns in two ways only: as the no-op on a populated cache
    without [force], the whole state untouched, or after such a replacement. *)
Theorem refresh_cache_is_atomic force (self : collection) :
  let r := refresh_cache force self in
  (forall e, fst r = Raise e -> _vm_list (snd r) = _vm_list self) /\
  (forall body (bad : bytes),
      negb force && populated self = false ->
      fst (call "dom0" "mgmt.vm.List" None None (app self)) = Ret body ->
      In bad (splitlines body) -> ~ In x20 bad ->
      fst r = Raise ValueError /\ _vm_list (snd r) = _vm_list self) /\
  (forall body m,
      negb force && populated self = false ->
      fst (call "dom0" "mgmt.vm.List" None None (app self)) = Ret body ->
      build_vm_list (splitlines body) [] = Ret m ->
      fst r = Ret tt /\ _vm_list (snd r) = Some m) /\
  (fst r = Ret tt ->
   (negb force && populated self = true /\ snd r = self) \/
   (negb force && populated self = false /\
    exists body m,
      fst (call "dom0" "mgmt.vm.List" None None (app self)) = Ret body /\
      build_vm_list (splitlines body) [] = Ret m /\
      _vm_list (snd r) = Some m)).
Proof.
  cbv zeta. rewrite refresh_cache_stages. split; [|split; [|split]].
  - intro e. destruct (negb force && _); [discriminate|].
    destruct (call _ _ _ _ _) as [[body|e'] w]; [|reflexivity].
    now destruct (build_vm_list _ _).
  - intros body bad -> Hcall Hin Hbad.
    destruct (call _ _ _ _ _) as [[body'|e'] w]; [|discriminate].
    simpl in Hcall. injection Hcall as ->.
    now rewrite (build_vm_list_bad_line _ [] bad Hin Hbad).
  - intros body m -> Hcall Hbuild.
    destruct (call _ _ _ _ _) as [[body'|e'] w]; [|discriminate].
    simpl in Hcall. injection Hcall as ->.
    now rewrite Hbuild.
  - destruct (negb force && _); [now left|].
    destruct (call _ _ _ _ _) as [[body|e'] w]; [|discriminate].
    destruct (build_vm_list _ _) as [m|e'] eqn:E; [|discriminate].
    intros _. right. split; [reflexivity|]. now exists body, m.
Qed.

(** C10: the map [refresh_cache] builds has only [bytes] keys, for the VMs
    and inside every property dict, and every operation of the collection
    keeps it so.  Hence a [str] name is never found: the membership test
    answers [False] and the lookup raises [KeyError] on the name.  A name
    that is found is looked up in its property dict under the [str] key
    ['class'], which is not there either. *)
Theorem cache_is_keyed_by_bytes :
  (forall (lines : list bytes) m,
      build_vm_list lines [] = Ret m -> cache_bytes_keyed m) /\
  (forall self : collection,
      cache_invariant self ->
      (forall force, cache_invariant (snd (refresh_cache force self))) /\
      (forall item, cache_invariant (snd (__contains__ item self))) /\
      (forall item, cache_invariant (snd (__getitem__ item self))) /\
      cache_invariant (snd (__iter__ self)) /\
      cache_invariant (snd (keys self))) /\
  (forall (self : collection) s present,
      cache_invariant self ->
      fst (__contains__ (PStr s) self) = Ret present ->
      present = false /\
      fst (__getitem__ (PStr s) self) = Raise (KeyError (PStr s))) /\
  (forall (self : collection) item,
      cache_invariant self ->
      fst (__contains__ item self) = Ret true ->
      is_bytes item = true /\
      fst (__getitem__ item self) = Raise (KeyError (PStr "class"))).
Proof.
  split; [|split; [|split]].
  - intros lines m. apply build_vm_list_bytes_keyed. split; constructor.
  - intros self Hinv. repeat split.
    + intro force. now apply refresh_cache_invariant.
    + intro item. rewrite __contains___state.
      now apply refresh_cache_invariant.
    + intro item. now apply __getitem___invariant.
    + now apply __iter___invariant.
    + rewrite keys_state. now apply refresh_cache_invariant.
  - intros self s present Hinv Hc.
    destruct (__contains___returns _ _ _ Hc) as (m & Hm & ->).
    assert (Hinv' : cache_invariant (snd (__contains__ (PStr s) self))).
    { rewrite __contains___state. now apply refresh_cache_invariant. }
    unfold cache_invariant in Hinv'. rewrite Hm in Hinv'.
    assert (Hf : dict_contains (PStr s) m = false).
    { unfold dict_contains.
      now rewrite (dict_get_text_in_bytes_keyed s m (proj1 Hinv')). }
    split; [exact Hf|].
    rewrite __getitem___stages.
    destruct (__contains__ (PStr s) self) as [[b|e] self']; [|discriminate].
    simpl in Hc. injection Hc as ->. now rewrite Hf.
  - intros self item Hinv Hc.
    destruct (__contains___returns _ _ _ Hc) as (m & Hm & Hd).
    assert (Hinv' : cache_invariant (snd (__contains__ item self))).
    { rewrite __contains___state. now apply refresh_cache_invariant. }
    unfold cache_invariant in Hinv'. rewrite Hm in Hinv'.
    split.
    { destruct item as [|s|data]; [| |reflexivity]; exfalso.
      - unfold dict_contains in Hd. destruct Hinv' as [Hk _].
        clear -Hd Hk. induction Hk as [|[k v] d Hkv _ IH];
          [discriminate|]. simpl in Hd, Hkv.
        destruct k; try discriminate. now apply IH.
      - unfold dict_contains in Hd.
        now rewrite (dict_get_text_in_bytes_keyed s m (proj1 Hinv')) in Hd. }
    rewrite __getitem___stages.
    destruct (__contains__ item self) as [[b|e] self']; [|discriminate].
    simpl in Hc, Hm. injection Hc as ->. rewrite Hm.
    unfold dict_index, dict_contains in *.
    destruct (dict_get item m) as [props|] eqn:Eg; [|discriminate].
    assert (Hp : bytes_keyed props)
      by exact (dict_get_value bytes_keyed _ _ _ (proj2 Hinv') Eg).
    now rewrite (dict_get_text_in_bytes_keyed "class" props Hp).
Qed.
End CacheClaims.

(** ** The two-VM scenario *)

(** C3: after a refresh on the listing of [vm1] and [vm2] the cache holds two
    entities and looking up ["vm3"] raises [KeyError]; but the names are
    stored as [bytes], so the membership test for the text ["vm1"] answers
    [False], the lookup of ["vm1"] raises [KeyError], and the lookup of
    [b"vm1"], which is found, raises [KeyError('class')] instead of returning
    a wrapper. *)
Theorem two_vm_scenario_lookups :
  fst (refresh_cache nat two_vm_app true fresh_collection) = Ret tt /\
  option_map (@List.length _) (_vm_list two_vm_collection) = Some 2 /\
  fst (__getitem__ nat two_vm_app (PStr "vm3") two_vm_collection) =
    Raise (KeyError (PStr "vm3")) /\
  fst (__contains__ nat two_vm_app (PStr "vm1") two_vm_collection) =
    Ret false /\
  fst (__getitem__ nat two_vm_app (PStr "vm1") two_vm_collection) =
    Raise (KeyError (PStr "vm1")) /\
  fst (__contains__ nat two_vm_app (PBytes (bytes_of "vm1"))
         two_vm_collection) =
    Ret true /\
  fst (__getitem__ nat two_vm_app (PBytes (bytes_of "vm1")) two_vm_collection) =
    Raise (KeyError (PStr "class")).
Proof. repeat split; vm_compute; reflexivity. Qed.

Lemma refresh_cache_calls_and_keys_witness :
  refresh_cache nat two_vm_app false two_vm_collection =
    (Ret tt, two_vm_collection) /\
  fst (keys nat two_vm_app two_vm_collection) =
    Ret [PBytes (bytes_of "vm1"); PBytes (bytes_of "vm2")].
Proof.
  pose proof (refresh_cache_calls_and_keys nat two_vm_app) as H.
  split.
  - exact (proj1 (H two_vm_collection) _ eq_refl).
  - destruct (proj2 (proj2 (H fresh_collection)) two_vm_listing _
                eq_refl eq_refl) as (ks & Hk & _ & _ & Hnames).
    fold two_vm_collection in Hk. rewrite Hk. cbn [fst]. f_equal.
    apply Hnames. vm_compute.
    repeat constructor; simpl; intuition discriminate.
Defined.

Lemma refresh_cache_is_atomic_witness :
  (let r := refresh_cache nat (canned_app (Ret (bytes_of "vm1"))) true
              two_vm_collection in
   fst r = Raise ValueError /\
   _vm_list (snd r) = _vm_list two_vm_collection) /\
  (let r := refresh_cache nat two_vm_app true fresh_collection in
   fst r = Ret tt /\
   option_map (@dict_keys _) (_vm_list (snd r)) =
     Some [PBytes (bytes_of "vm1"); PBytes (bytes_of "vm2")]).
Proof.
  split.
  - apply (proj1 (proj2 (refresh_cache_is_atomic nat
                           (canned_app (Ret (bytes_of "vm1"))) true
                           two_vm_collection))
             (bytes_of "vm1") (bytes_of "vm1")).
    + reflexivity.
    + reflexivity.
    + now left.
    + vm_compute. intuition discriminate.
  - destruct (proj1 (proj2 (proj2 (refresh_cache_is_atomic nat two_vm_app true
                                     fresh_collection)))
                two_vm_listing _ eq_refl eq_refl eq_refl) as [Hr Hm].
    cbv zeta. split; [exact Hr|]. rewrite Hm. reflexivity.
Defined.

Lemma cache_is_keyed_by_bytes_witness :
  fst (__getitem__ nat two_vm_app (PStr "vm1") two_vm_collection) =
    Raise (KeyError (PStr "vm1")) /\
  fst (__getitem__ nat two_vm_app (PBytes (bytes_of "vm2")) two_vm_collection) =
    Raise (KeyError (PStr "class")).
Proof.
  pose proof (cache_is_keyed_by_bytes nat two_vm_app)
    as (Hbuilt & _ & Htext & Hfound).
  assert (Hinv : cache_invariant two_vm_collection).
  { apply (Hbuilt (splitlines two_vm_listing)). reflexivity. }
  split.
  - exact (proj2 (Htext two_vm_collection "vm1" false Hinv eq_refl)).
  - apply (Hfound two_vm_collection (PBytes (bytes_of "vm2")) Hinv).
    reflexivity.
Defined.

(** ** Splitting *)

Lemma has_byte_In c (data : bytes) : has_byte c data = true <-> In c data.
Proof.
  unfold has_byte. rewrite existsb_exists. split.
  - intros (x & Hx & E). apply Byte.byte_dec_bl in E. now subst.
  - intro H. exists c. split; [exact H | now apply Byte.byte_dec_lb].
Qed.

Lemma has_byte_false c (data : bytes) : has_byte c data = false <-> ~ In c data.
Proof.
  rewrite <- has_byte_In. destruct (has_byte c data); intuition congruence.
Qed.

Lemma bytes_split_zero sep (data : bytes) :
  bytes_split sep (Some 0) data = [data].
Proof.
  induction data as [|c rest IH]; [reflexivity|].
  simpl. rewrite andb_false_r, IH. reflexivity.
Qed.

Lemma bytes_split_absent sep maxsplit (data : bytes) :
  ~ In sep data -> bytes_split sep maxsplit data = [data].
Proof.
  induction data as [|c rest IH]; intro Hn; [reflexivity|].
  simpl. destruct (Byte.eqb c sep) eqn:E.
  - apply Byte.byte_dec_bl in E. subst. exfalso. apply Hn. now left.
  - simpl. rewrite IH; [reflexivity|]. intro. apply Hn. now right.
Qed.

(** [split(sep, 1)] cuts at the first separator only. *)
Lemma bytes_split_once sep (data : bytes) :
  In sep data ->
  exists before,
    bytes_split sep (Some 1) data = [before; after_first sep data] /\
    ~ In sep before /\
    data = before ++ sep :: after_first sep data.
Proof.
  induction data as [|c rest IH]; intro Hin; [destruct Hin|].
  simpl. destruct (Byte.eqb c sep) eqn:E.
  - apply Byte.byte_dec_bl in E. subst c. simpl.
    rewrite bytes_split_zero. exists []. now repeat split.
  - simpl. destruct Hin as [->|Hin].
    + now rewrite (Byte.byte_dec_lb eq_refl) in E.
    + destruct (IH Hin) as (before & -> & Hb & Hd).
      exists (c :: before). repeat split.
      * intros [->|H]; [|now apply Hb].
        now rewrite (Byte.byte_dec_lb eq_refl) in E.
      * simpl. now rewrite <- Hd.
Qed.

Lemma bytes_split_once_at sep (before rest : bytes) :
  ~ In sep before ->
  bytes_split sep (Some 1) (before ++ sep :: rest) = [before; rest].
Proof.
  induction before as [|c before IH]; intro Hn; simpl.
  - rewrite (Byte.byte_dec_lb eq_refl). simpl. now rewrite bytes_split_zero.
  - destruct (Byte.eqb c sep) eqn:E.
    + apply Byte.byte_dec_bl in E. subst. exfalso. apply Hn. now left.
    + simpl. rewrite IH; [reflexivity|]. intro. apply Hn. now right.
Qed.

(** ** Dictionaries: assignment and lookup *)

Lemma dict_get_set_same {V} k (v : V) d : dict_get k (dict_set k v d) = Some v.
Proof.
  induction d as [|[k' v'] d IH]; cbn [dict_set dict_get].
  - now rewrite py_eqb_refl.
  - destruct (py_eqb k k') eqn:E; cbn [dict_get]; rewrite E; [reflexivity|].
    exact IH.
Qed.

Lemma dict_get_set_other {V} k k2 (v : V) d :
  k <> k2 -> dict_get k (dict_set k2 v d) = dict_get k d.
Proof.
  intro Hne. induction d as [|[k' v'] d IH]; cbn [dict_set dict_get].
  - destruct (py_eqb k k2) eqn:E; [|reflexivity].
    apply py_eqb_eq in E. contradiction.
  - destruct (py_eqb k2 k') eqn:E; cbn [dict_get].
    + apply py_eqb_eq in E. subst k'.
      destruct (py_eqb k k2) eqn:E2; [|reflexivity].
      apply py_eqb_eq in E2. contradiction.
    + now rewrite IH.
Qed.

(** ** The listing parser, line by line *)

Lemma dict_of_seq_token (token : bytes) tokens acc :
  dict_of_seq (map (bytes_split x3d (Some 1)) (token :: tokens)) acc =
  if has_byte x3d token then
    dict_of_seq (map (bytes_split x3d (Some 1)) tokens)
                (dict_set (token_key token)
                          (PBytes (after_first x3d token)) acc)
  else Raise ValueError.
Proof.
  unfold token_key. cbn [map dict_of_seq].
  destruct (has_byte x3d token) eqn:E.
  - apply has_byte_In in E.
    destruct (bytes_split_once x3d token E) as (key & -> & _ & _).
    reflexivity.
  - apply has_byte_false in E. now rewrite (bytes_split_absent _ _ _ E).
Qed.

Lemma dict_of_seq_tokens (tokens : list bytes) : forall acc,
  if forallb (has_byte x3d) tokens
  then exists d, dict_of_seq (map (bytes_split x3d (Some 1)) tokens) acc = Ret d
  else dict_of_seq (map (bytes_split x3d (Some 1)) tokens) acc =
       Raise ValueError.
Proof.
  induction tokens as [|token tokens IH]; intro acc.
  - now exists acc.
  - rewrite dict_of_seq_token. cbn [forallb].
    destruct (has_byte x3d token); [apply IH | reflexivity].
Qed.

Lemma line_props_well_formed (line : bytes) :
  if forallb (has_byte x3d) (line_tokens line)
  then exists d, line_props line = Ret d
  else line_props line = Raise ValueError.
Proof. apply dict_of_seq_tokens. Qed.

Lemma build_vm_list_line (line : bytes) (lines : list bytes) acc :
  VMCollection.build_vm_list (line :: lines) acc =
  if has_byte x20 line then
    match line_props line with
    | Ret d =>
        VMCollection.build_vm_list lines (dict_set (line_name line) d acc)
    | Raise e => Raise e
    end
  else Raise ValueError.
Proof.
  unfold line_props, line_tokens, line_name. cbn [VMCollection.build_vm_list].
  destruct (has_byte x20 line) eqn:E.
  - apply has_byte_In in E.
    destruct (bytes_split_once x20 line E) as (name & -> & _ & _).
    reflexivity.
  - apply has_byte_false in E. now rewrite (bytes_split_absent _ _ _ E).
Qed.

Lemma build_vm_list_well_formed (lines : list bytes) : forall acc,
  if forallb well_formed_line lines
  then exists m, VMCollection.build_vm_list lines acc = Ret m
  else VMCollection.build_vm_list lines acc = Raise ValueError.
Proof.
  induction lines as [|line lines IH]; intro acc.
  - now exists acc.
  - rewrite build_vm_list_line. cbn [forallb]. unfold well_formed_line at 1.
    destruct (has_byte x20 line); [|reflexivity]. cbn [andb].
    pose proof (line_props_well_formed line) as Hp.
    destruct (forallb (has_byte x3d) (line_tokens line)).
    + destruct Hp as (d & ->). cbn [andb]. apply IH.
    + now rewrite Hp.
Qed.

(** Lines after the last one that names [k] do not touch the entry of [k]. *)
Lemma build_vm_list_keeps (lines : list bytes) : forall acc m k,
  VMCollection.build_vm_list lines acc = Ret m ->
  (forall l, In l lines -> line_name l <> k) ->
  dict_get k m = dict_get k acc.
Proof.
  induction lines as [|line lines IH]; intros acc m k Hb Hk.
  - injection Hb as <-. reflexivity.
  - rewrite build_vm_list_line in Hb.
    destruct (has_byte x20 line); [|discriminate].
    destruct (line_props line) as [d|e]; [|discriminate].
    rewrite (IH _ _ k Hb) by (intros l Hl; apply Hk; now right).
    apply dict_get_set_other. intro E.
    apply (Hk line); [now left | now symmetry].
Qed.

(** X2: in the map built from a listing, a name is bound to the properties of
    the last line that carries it. *)
Theorem listing_last_line_wins (before after : list bytes) (line : bytes) m :
  VMCollection.build_vm_list (before ++ line :: after) [] = Ret m ->
  (forall l, In l after -> line_name l <> line_name line) ->
  exists d, line_props line = Ret d /\ dict_get (line_name line) m = Some d.
Proof.
  generalize (@nil (pyval * VMCollection.vm_props)).
  induction before as [|l0 before IH]; intros acc Hb Hafter.
  - cbn [Datatypes.app] in Hb. rewrite build_vm_list_line in Hb.
    destruct (has_byte x20 line); [|discriminate].
    destruct (line_props line) as [d|e]; [|discriminate].
    exists d. split; [reflexivity|].
    rewrite (build_vm_list_keeps _ _ _ _ Hb Hafter).
    apply dict_get_set_same.
  - cbn [Datatypes.app] in Hb. rewrite build_vm_list_line in Hb.
    destruct (has_byte x20 l0); [|discriminate].
    destruct (line_props l0) as [d0|e]; [|discriminate].
    now apply (IH _ Hb).
Qed.

Lemma listing_last_line_wins_witness :
  exists d,
    line_props (bytes_of "vm1 class=AppVM") = Ret d /\
    dict_get (PBytes (bytes_of "vm1"))
      [(PBytes (bytes_of "vm1"),
        [(PBytes (bytes_of "class"), PBytes (bytes_of "AppVM"))])] = Some d.
Proof.
  apply (listing_last_line_wins [bytes_of "vm1 class=StandaloneVM"] []
           (bytes_of "vm1 class=AppVM")).
  - reflexivity.
  - intros l [].
Defined.

Lemma dict_of_seq_keeps (tokens : list bytes) : forall acc d k,
  dict_of_seq (map (bytes_split x3d (Some 1)) tokens) acc = Ret d ->
  (forall t, In t tokens -> token_key t <> k) ->
  dict_get k d = dict_get k acc.
Proof.
  induction tokens as [|token tokens IH]; intros acc d k Hd Hk.
  - injection Hd as <-. reflexivity.
  - rewrite dict_of_seq_token in Hd.
    destruct (has_byte x3d token); [|discriminate].
    rewrite (IH _ _ k Hd) by (intros t Ht; apply Hk; now right).
    apply dict_get_set_other. intro E.
    apply (Hk token); [now left | now symmetry].
Qed.

(** X3: a property token [key=value] binds [key] (what precedes the first
    equals sign) to everything after that sign, further equals signs
    included; of several tokens with one key the last counts. *)
Theorem line_property_lookup (line key value : bytes)
        (before after : list bytes) d :
  line_tokens line = before ++ (key ++ x3d :: value) :: after ->
  ~ In x3d key ->
  (forall t, In t after -> token_key t <> PBytes key) ->
  line_props line = Ret d ->
  dict_get (PBytes key) d = Some (PBytes value).
Proof.
  unfold line_props. intros -> Hkey. generalize (@nil (pyval * pyval)).
  induction before as [|t0 before IH]; intros acc Hafter Hd.
  - cbn [Datatypes.app] in Hd. rewrite dict_of_seq_token in Hd.
    assert (Hin : In x3d (key ++ x3d :: value))
      by (apply in_or_app; right; now left).
    rewrite (proj2 (has_byte_In _ _) Hin) in Hd.
    assert (Hk : token_key (key ++ x3d :: value) = PBytes key)
      by (unfold token_key; now rewrite bytes_split_once_at).
    assert (Hv : after_first x3d (key ++ x3d :: value) = value).
    { clear -Hkey. induction key as [|c key IHk]; simpl.
      - reflexivity.
      - destruct (Byte.eqb c x3d) eqn:E.
        + apply Byte.byte_dec_bl in E. subst. exfalso. apply Hkey. now left.
        + apply IHk. intro. apply Hkey. now right. }
    rewrite Hk, Hv in Hd.
    rewrite (dict_of_seq_keeps _ _ _ _ Hd Hafter).
    apply dict_get_set_same.
  - cbn [Datatypes.app] in Hd. rewrite dict_of_seq_token in Hd.
    destruct (has_byte x3d t0); [|discriminate].
    exact (IH _ Hafter Hd).
Qed.

Lemma line_property_lookup_witness :
  dict_get (PBytes (bytes_of "opts"))
    [(PBytes (bytes_of "class"), PBytes (bytes_of "AppVM"));
     (PBytes (bytes_of "opts"), PBytes (bytes_of "a=b"))] =
  Some (PBytes (bytes_of "a=b")).
Proof.
  apply (line_property_lookup (bytes_of "vm1 class=AppVM opts=a=b")
           (bytes_of "opts") (bytes_of "a=b") [bytes_of "class=AppVM"] []).
  - reflexivity.
  - vm_compute. intuition discriminate.
  - intros t [].
  - reflexivity.
Defined.

(** ** The collection: reads, retries and iteration *)

Section CacheReads.
Variable World : Type.
Variable call : str -> str -> option str -> option bytes -> M World bytes.

Local Abbreviation refresh_cache := (VMCollection.refresh_cache World call).
Local Abbreviation __contains__ := (VMCollection.__contains__ World call).
Local Abbreviation __getitem__ := (VMCollection.__getitem__ World call).
Local Abbreviation __iter__ := (VMCollection.__iter__ World call).
Local Abbreviation keys := (VMCollection.keys World call).
Local Abbreviation collection := (VMCollection.collection World).

Lemma refresh_cache_calls force (self : collection) :
  calls (snd (refresh_cache force self)) = calls self \/
  calls (snd (refresh_cache force self)) = calls self ++ [entity_list_request].
Proof.
  rewrite refresh_cache_stages.
  destruct (negb force && _); [now left|]. right.
  destruct (call _ _ _ _ _) as [[body|e] w]; [|reflexivity].
  now destruct (build_vm_list _ _).
Qed.

Lemma __getitem___populated item (self : collection) m :
  _vm_list self = Some m -> snd (__getitem__ item self) = self.
Proof.
  intro H. now rewrite __getitem___state, (refresh_cache_populated _ _ _ _ H).
Qed.

Lemma yield_each_populated names (self : collection) m :
  _vm_list self = Some m -> snd (yield_each World call names self) = self.
Proof.
  intro H. induction names as [|vm names IH]; [reflexivity|].
  cbn [yield_each]. unfold bind at 1.
  pose proof (__getitem___populated vm self m H) as Hg.
  destruct (__getitem__ vm self) as [[item|e] s1]; simpl in Hg; subst s1;
    [|reflexivity].
  unfold bind at 1.
  destruct (yield_each World call names self) as [[items|e] s2];
    simpl in IH; subst s2; reflexivity.
Qed.

Lemma __iter___state (self : collection) :
  snd (__iter__ self) = snd (refresh_cache false self).
Proof.
  unfold VMCollection.__iter__, bind.
  destruct (refresh_cache false self) as [[u|e] s1]; [|reflexivity].
  destruct (_vm_list s1) as [m|] eqn:E; [|reflexivity].
  apply (yield_each_populated _ _ m E).
Qed.

(** A name found in a cache with [bytes] keys: the lookup stops at the
    [str] key ['class']. *)
Lemma __getitem___found item (self : collection) m :
  cache_invariant self -> _vm_list self = Some m ->
  dict_contains item m = true ->
  __getitem__ item self = (Raise (KeyError (PStr "class")), self).
Proof.
  intros Hinv Hm Hc. unfold cache_invariant in Hinv. rewrite Hm in Hinv.
  rewrite __getitem___stages, (__contains___populated _ _ _ _ _ Hm), Hc, Hm.
  unfold dict_index, dict_contains in *.
  destruct (dict_get item m) as [props|] eqn:Eg; [|discriminate].
  assert (Hp : bytes_keyed props)
    by exact (dict_get_value bytes_keyed _ _ _ (proj2 Hinv) Eg).
  now rewrite (dict_get_text_in_bytes_keyed "class" props Hp).
Qed.

(** X1: once the listing call has returned, a forced refresh succeeds
    exactly when every line of the response has a space and every token after
    the name has an equals sign; otherwise it raises [ValueError].  A blank
    line, a name alone, a doubled or a trailing space all make it fail. *)
Theorem refresh_cache_accepts_well_formed_listings (self : collection) body :
  fst (call "dom0" "mgmt.vm.List" None None (app self)) = Ret body ->
  fst (refresh_cache true self) =
  if forallb well_formed_line (splitlines body) then Ret tt
  else Raise ValueError.
Proof.
  intro Hcall. rewrite refresh_cache_stages. cbn [negb andb].
  destruct (call _ _ _ _ _) as [[body'|e] w]; [|discriminate].
  simpl in Hcall. injection Hcall as ->.
  pose proof (build_vm_list_well_formed (splitlines body) []) as H.
  destruct (forallb well_formed_line (splitlines body)).
  - destruct H as (m & ->). reflexivity.
  - now rewrite H.
Qed.

(** X4: an empty listing populates the cache with the empty map: [keys()] and
    iteration give nothing, no name is contained, and later unforced reads
    do not ask again. *)
Theorem empty_listing_is_cached (self : collection) :
  fst (call "dom0" "mgmt.vm.List" None None (app self)) = Ret [] ->
  let self' := snd (refresh_cache true self) in
  _vm_list self' = Some [] /\
  refresh_cache false self' = (Ret tt, self') /\
  keys self' = (Ret [], self') /\
  __iter__ self' = (Ret [], self') /\
  (forall item, __contains__ item self' = (Ret false, self') /\
                __getitem__ item self' = (Raise (KeyError item), self')).
Proof.
  intros Hcall self'.
  assert (Hm : _vm_list self' = Some []).
  { subst self'. rewrite refresh_cache_stages. cbn [negb andb].
    destruct (call _ _ _ _ _) as [[body'|e] w]; [|discriminate].
    simpl in Hcall. injection Hcall as ->. reflexivity. }
  assert (Hr : refresh_cache false self' = (Ret tt, self'))
    by exact (refresh_cache_populated _ _ _ _ Hm).
  split; [exact Hm|]. split; [exact Hr|]. split; [|split].
  - now rewrite keys_stages, Hr, Hm.
  - unfold VMCollection.__iter__, bind. now rewrite Hr, Hm.
  - intro item.
    assert (Hc : __contains__ item self' = (Ret false, self'))
      by now rewrite (__contains___populated _ _ _ _ _ Hm).
    split; [exact Hc|]. now rewrite __getitem___stages, Hc.
Qed.

(** X5: every read ends in the state [refresh_cache(False)] ends in; that
    costs at most one listing call, none at all on a populated cache, and a
    refresh that returns leaves the cache populated.  So after one read that
    got through, no later read calls the daemon. *)
Theorem reads_cost_one_call_at_most (self : collection) :
  (forall item,
      snd (__contains__ item self) = snd (refresh_cache false self) /\
      snd (__getitem__ item self) = snd (refresh_cache false self)) /\
  snd (keys self) = snd (refresh_cache false self) /\
  snd (__iter__ self) = snd (refresh_cache false self) /\
  (calls (snd (refresh_cache false self)) = calls self \/
   calls (snd (refresh_cache false self)) =
     calls self ++ [entity_list_request]) /\
  (populated self = true -> snd (refresh_cache false self) = self) /\
  (fst (refresh_cache false self) = Ret tt ->
   populated (snd (refresh_cache false self)) = true).
Proof.
  split; [|split; [|split; [|split; [|split]]]].
  - intro item. split; [apply __contains___state | apply __getitem___state].
  - apply keys_state.
  - apply __iter___state.
  - apply refresh_cache_calls.
  - unfold populated. destruct (_vm_list self) as [m|] eqn:E; [|discriminate].
    intros _. now rewrite (refresh_cache_populated _ _ _ _ E).
  - intro H. destruct (refresh_cache_returns _ _ _ _ H) as (m & Hm).
    unfold populated. now rewrite Hm.
Qed.

(** X6: a failure is not remembered.  When a refresh of an unpopulated cache
    raises, the cache stays unpopulated, and the next unforced read issues
    the listing call again. *)
Theorem failed_refresh_is_retried (self : collection) e :
  _vm_list self = None ->
  fst (refresh_cache false self) = Raise e ->
  let self' := snd (refresh_cache false self) in
  _vm_list self' = None /\
  calls self' = calls self ++ [entity_list_request] /\
  calls (snd (refresh_cache false self')) =
    calls self ++ [entity_list_request; entity_list_request].
Proof.
  intros Hnone Hraise self'.
  assert (H1 : _vm_list self' = None /\
               calls self' = calls self ++ [entity_list_request]).
  { subst self'. revert Hraise. rewrite refresh_cache_stages.
    unfold populated. rewrite Hnone. cbn [negb andb].
    destruct (call _ _ _ _ _) as [[body|e'] w]; [|now intros _].
    destruct (build_vm_list _ _); [discriminate | now intros _]. }
  destruct H1 as [Hn Hc]. split; [exact Hn|]. split; [exact Hc|].
  rewrite refresh_cache_stages. unfold populated. rewrite Hn. cbn [negb andb].
  destruct (call _ _ _ _ (app self')) as [[body|e'] w].
  - destruct (build_vm_list _ _); cbn [snd calls]; rewrite Hc;
      now rewrite <- List.app_assoc.
  - cbn [snd calls]. rewrite Hc. now rewrite <- List.app_assoc.
Qed.

(** X7: iteration never yields a wrapper.  On a cache that holds at least
    one VM the first [self[vm]] raises [KeyError('class')]; only an empty
    cache is iterated to the end. *)
Theorem iteration_yields_no_wrapper (self : collection) :
  cache_invariant self ->
  (forall items, fst (__iter__ self) = Ret items -> items = []) /\
  (forall name props rest,
      _vm_list self = Some ((name, props) :: rest) ->
      __iter__ self = (Raise (KeyError (PStr "class")), self)).
Proof.
  intro Hinv.
  assert (Hne : forall (s : collection) name props rest,
             cache_invariant s ->
             _vm_list s = Some ((name, props) :: rest) ->
             yield_each World call (dict_keys ((name, props) :: rest)) s =
             (Raise (KeyError (PStr "class")), s)).
  { intros s name props rest Hs Hm. cbn [dict_keys map fst yield_each].
    unfold bind at 1.
    rewrite (__getitem___found name s _ Hs Hm); [reflexivity|].
    unfold dict_contains. cbn [dict_get]. now rewrite py_eqb_refl. }
  split.
  - intro items. unfold VMCollection.__iter__, bind.
    pose proof (refresh_cache_invariant World call false self Hinv) as Hinv1.
    destruct (refresh_cache false self) as [[u|e] s1]; [|discriminate].
    simpl in Hinv1.
    destruct (_vm_list s1) as [[|[name props] rest]|] eqn:Em; [| |discriminate].
    + now intros [= <-].
    + rewrite (Hne s1 name props rest Hinv1 Em). discriminate.
  - intros name props rest Hm. unfold VMCollection.__iter__, bind.
    rewrite (refresh_cache_populated _ _ _ _ Hm), Hm.
    now apply Hne.
Qed.
End CacheReads.

Lemma reads_cost_one_call_at_most_witness :
  snd (VMCollection.refresh_cache nat two_vm_app false two_vm_collection) =
  two_vm_collection.
Proof.
  apply (proj1 (proj2 (proj2 (proj2 (proj2
           (reads_cost_one_call_at_most nat two_vm_app two_vm_collection)))))).
  reflexivity.
Defined.

Lemma iteration_yields_no_wrapper_witness :
  fst (VMCollection.__iter__ nat two_vm_app two_vm_collection) =
  Raise (KeyError (PStr "class")).
Proof.
  assert (Hinv : cache_invariant two_vm_collection).
  { apply (build_vm_list_bytes_keyed (splitlines two_vm_listing) []);
      [split; constructor | reflexivity]. }
  rewrite (proj2 (iteration_yields_no_wrapper nat two_vm_app
                    two_vm_collection Hinv)
             (PBytes (bytes_of "vm1")) _ _ eq_refl).
  reflexivity.
Defined.

Lemma refresh_cache_accepts_well_formed_listings_witness :
  fst (VMCollection.refresh_cache nat (canned_app (Ret blank_line_listing))
         true fresh_collection) = Raise ValueError.
Proof.
  rewrite (refresh_cache_accepts_well_formed_listings nat
             (canned_app (Ret blank_line_listing)) fresh_collection
             blank_line_listing eq_refl).
  reflexivity.
Defined.

Lemma empty_listing_is_cached_witness :
  fst (VMCollection.keys nat (canned_app (Ret []))
         (snd (VMCollection.refresh_cache nat (canned_app (Ret [])) true
                 fresh_collection))) = Ret [].
Proof.
  destruct (empty_listing_is_cached nat (canned_app (Ret [])) fresh_collection
              eq_refl) as (_ & _ & Hkeys & _).
  now rewrite Hkeys.
Defined.

Lemma failed_refresh_is_retried_witness :
  calls (snd (VMCollection.refresh_cache nat (canned_app (Raise (OSError 111)))
                false
                (snd (VMCollection.refresh_cache nat
                        (canned_app (Raise (OSError 111))) false
                        fresh_collection)))) =
  [entity_list_request; entity_list_request].
Proof.
  exact (proj2 (proj2 (failed_refresh_is_retried nat
                         (canned_app (Raise (OSError 111))) fresh_collection
                         (OSError 111) eq_refl eq_refl))).
Defined.

(** ** The collection over the two transports *)

(** X8: over the Local transport the cache is never populated: on an
    unpopulated collection every operation raises and leaves it
    unpopulated, whatever the socket and the decoder do. *)
Theorem local_collection_never_populates
        (parse : bytes -> result bytes)
        (self : VMCollection.collection QubesLocal.channel) :
  _vm_list self = None ->
  let call := QubesLocal._do_qubesd_call parse in
  (forall force,
      raises_unpopulated (VMCollection.refresh_cache _ call force self)) /\
  (forall item,
      raises_unpopulated (VMCollection.__contains__ _ call item self) /\
      raises_unpopulated (VMCollection.__getitem__ _ call item self)) /\
  raises_unpopulated (VMCollection.keys _ call self) /\
  raises_unpopulated (VMCollection.__iter__ _ call self).
Proof.
  intros Hnone call.
  assert (Hr : forall force,
             raises_unpopulated (VMCollection.refresh_cache _ call force self)).
  { intro force. unfold raises_unpopulated.
    rewrite refresh_cache_stages. unfold populated. rewrite Hnone.
    rewrite andb_false_r.
    destruct (local_call_never_returns parse "dom0" "mgmt.vm.List" None None
                (app self)) as (e & He).
    subst call. destruct (QubesLocal._do_qubesd_call _ _ _ _ _ _) as [r w].
    simpl in He. subst r. split; [now exists e | reflexivity]. }
  split; [exact Hr|].
  destruct (Hr false) as [(e & He) Hn].
  assert (Hc : forall item,
             raises_unpopulated (VMCollection.__contains__ _ call item self)).
  { intro item. unfold raises_unpopulated. rewrite __contains___stages.
    destruct (VMCollection.refresh_cache _ call false self) as [[u|e'] s1];
      [discriminate|]. split; [now exists e' | exact Hn]. }
  split; [|split].
  - intro item. split; [apply Hc|].
    unfold raises_unpopulated. rewrite __getitem___stages.
    destruct (Hc item) as [(e' & He') Hn'].
    destruct (VMCollection.__contains__ _ call item self) as [[b|e''] s1];
      [discriminate|]. split; [now exists e'' | exact Hn'].
  - unfold raises_unpopulated. rewrite keys_stages.
    destruct (VMCollection.refresh_cache _ call false self) as [[u|e'] s1];
      [discriminate|]. split; [now exists e' | exact Hn].
  - unfold raises_unpopulated, VMCollection.__iter__, bind.
    destruct (VMCollection.refresh_cache _ call false self) as [[u|e'] s1];
      [discriminate|]. split; [now exists e' | exact Hn].
Qed.

Lemma local_collection_never_populates_witness :
  exists e,
    fst (VMCollection.keys _
           (QubesLocal._do_qubesd_call spec_parse_qubesd_response)
           (local_collection
              (daemon_socket [x30 :: x00 :: two_vm_listing]))) = Raise e.
Proof.
  exact (proj1 (proj1 (proj2 (proj2
           (local_collection_never_populates spec_parse_qubesd_response
              (local_collection (daemon_socket [x30 :: x00 :: two_vm_listing]))
              eq_refl))))).
Defined.

Lemma remote_entity_list_call (parse : bytes -> result bytes) h :
  QubesRemote._do_qubesd_call parse "dom0" "mgmt.vm.List" None None h =
  match QubesRemote.spawn_error h entity_list_argv with
  | Some e => (Raise e, QubesRemote.log (QubesRemote.Popen entity_list_argv) h)
  | None =>
      let out := QubesRemote.run h entity_list_argv None in
      let h' := QubesRemote.log
                  (QubesRemote.Communicate entity_list_argv None)
                  (QubesRemote.log (QubesRemote.Popen entity_list_argv) h) in
      if (QubesRemote.returncode out =? 0)%Z
      then (parse (QubesRemote.stdout out), h')
      else
        match bytes_decode (QubesRemote.stderr out) with
        | Ret text =>
            (Raise (QubesException "Service call error: %s" [text]), h')
        | Raise e => (Raise e, h')
        end
  end.
Proof. exact (remote_call_stages parse "dom0" "mgmt.vm.List" None None h). Qed.

(** X9: a forced refresh over the Remote transport starts one proxy,
    [qrexec-client-vm dom0 mgmt.vm.List] (no [+argument]), and feeds it
    nothing.  A non-zero exit makes the refresh raise and leaves the cache as
    it was; with exit code zero the cache becomes the parse of what the
    decoder makes of the output, when that is a well-formed listing. *)
Theorem remote_refresh (parse : bytes -> result bytes)
        (self : VMCollection.collection QubesRemote.host) :
  QubesRemote.spawn_error (app self) entity_list_argv = None ->
  let out := QubesRemote.run (app self) entity_list_argv None in
  let r := VMCollection.refresh_cache _ (QubesRemote._do_qubesd_call parse)
             true self in
  QubesRemote.trace (app (snd r)) =
    QubesRemote.trace (app self) ++
    [QubesRemote.Popen entity_list_argv;
     QubesRemote.Communicate entity_list_argv None] /\
  (QubesRemote.returncode out <> 0%Z ->
   (exists e, fst r = Raise e) /\ _vm_list (snd r) = _vm_list self) /\
  (QubesRemote.returncode out = 0%Z ->
   forall body,
     parse (QubesRemote.stdout out) = Ret body ->
     forallb well_formed_line (splitlines body) = true ->
     fst r = Ret tt /\
     exists m, build_vm_list (splitlines body) [] = Ret m /\
               _vm_list (snd r) = Some m).
Proof.
  intros Hs out r. subst r. rewrite refresh_cache_stages. cbn [negb andb].
  pose proof (remote_entity_list_call parse (app self)) as H.
  rewrite Hs in H. cbv zeta in H. fold out in H.
  destruct (QubesRemote._do_qubesd_call parse "dom0" "mgmt.vm.List" None None
              (app self)) as [res h'].
  destruct (QubesRemote.returncode out =? 0)%Z eqn:Ec.
  - apply Z.eqb_eq in Ec. injection H as -> ->.
    assert (Ht : forall (x : result unit) v,
               QubesRemote.trace
                 (app (snd (x,
                   {| _vm_list := v;
                      app := QubesRemote.log
                               (QubesRemote.Communicate entity_list_argv None)
                               (QubesRemote.log
                                  (QubesRemote.Popen entity_list_argv)
                                  (app self));
                      calls := calls self ++ [entity_list_request] |})))
               = QubesRemote.trace (app self) ++
                 [QubesRemote.Popen entity_list_argv;
                  QubesRemote.Communicate entity_list_argv None]).
    { intros x v. cbn [snd app QubesRemote.log QubesRemote.trace].
      now rewrite <- List.app_assoc. }
    split; [|split; [intro Hne; contradiction|]].
    + destruct (parse (QubesRemote.stdout out)) as [body|e]; [|apply Ht].
      destruct (build_vm_list (splitlines body) []); apply Ht.
    + intros _ body -> Hwf.
      pose proof (build_vm_list_well_formed (splitlines body) []) as Hb.
      rewrite Hwf in Hb. destruct Hb as (m & Hb). rewrite Hb.
      split; [reflexivity|]. now exists m.
  - apply Z.eqb_neq in Ec.
    destruct (bytes_decode (QubesRemote.stderr out)) as [text|e];
      injection H as -> ->;
      (split; [cbn [snd app QubesRemote.log QubesRemote.trace];
               now rewrite <- List.app_assoc|]);
      (split; [intros _; split; [eexists; reflexivity | reflexivity]
              | intro Hz; contradiction]).
Qed.

Lemma remote_refresh_witness :
  fst (VMCollection.refresh_cache _
         (QubesRemote._do_qubesd_call spec_parse_qubesd_response) true
         (VMCollection.__init__ _
            (stub_host (x30 :: x00 :: two_vm_listing) [] 0))) = Ret tt.
Proof.
  apply (proj2 (proj2 (remote_refresh spec_parse_qubesd_response
                         (VMCollection.__init__ _
                            (stub_host (x30 :: x00 :: two_vm_listing) [] 0))
                         eq_refl))
           eq_refl two_vm_listing eq_refl eq_refl).
Defined.

(** ** More on the two transports *)

(** X10: on a socket that connects, the first field that cannot be encoded
    ends the call with its exception.  The fields before it are on the wire,
    each with its NUL; the payload is not written and nothing is read. *)
Theorem local_call_stops_at_unencodable_field
        (parse : bytes -> result bytes) dest method arg payload ch
        pre v post fields e :
  QubesLocal.connect_error ch = None ->
  [PStr "dom0"; PStr method; PStr dest; of_option arg] = pre ++ v :: post ->
  map encode_ascii pre = map Ret fields ->
  encode_ascii v = Raise e ->
  let r := QubesLocal._do_qubesd_call parse dest method arg payload ch in
  fst r = Raise e /\
  QubesLocal.sent (snd r) = QubesLocal.sent ch ++ framed fields /\
  QubesLocal.recvs (snd r) = QubesLocal.recvs ch /\
  QubesLocal.inbox (snd r) = QubesLocal.inbox ch.
Proof.
  intros Hc Hsplit Hpre Hv r. subst r.
  rewrite _do_qubesd_call_stages, (connect_ok _ Hc), Hsplit.
  rewrite (for_each_fields_fail pre v e post fields _ Hpre Hv).
  cbn [fst snd]. now repeat split.
Qed.

Lemma local_call_stops_at_unencodable_field_witness :
  let r := QubesLocal._do_qubesd_call spec_parse_qubesd_response
             "dom0" non_ascii_method (Some "") (Some (bytes_of "data"))
             (daemon_socket []) in
  fst r = Raise UnicodeEncodeError /\
  QubesLocal.sent (snd r) = [bytes_of "dom0"; [x00]].
Proof.
  destruct (local_call_stops_at_unencodable_field spec_parse_qubesd_response
              "dom0" non_ascii_method (Some "") (Some (bytes_of "data"))
              (daemon_socket []) [PStr "dom0"] (PStr non_ascii_method)
              [PStr "dom0"; PStr ""] [bytes_of "dom0"] UnicodeEncodeError
              eq_refl eq_refl eq_refl eq_refl) as (Hr & Hs & _).
  split; [exact Hr | exact Hs].
Defined.

Lemma list_byte_of_string_app (s t : str) :
  list_byte_of_string (s ++ t)%string =
  list_byte_of_string s ++ list_byte_of_string t.
Proof.
  induction s as [|c s IH]; [reflexivity|].
  change (list_byte_of_string (String c s ++ t)%string)
    with (byte_of_ascii c :: list_byte_of_string (s ++ t)%string).
  now rewrite IH.
Qed.

(** X11: when the method name holds no plus sign, the service name tells
    method and argument apart: split at its first plus it gives back the
    two, and just the method when there is no argument.  A plus sign in the
    method name is indistinguishable from the separator. *)
Theorem service_name_round_trip (method arg : str) :
  ~ In x2b (list_byte_of_string method) ->
  str_split x2b (Some 1) (QubesRemote.service_name_of method (Some arg)) =
    [method; arg] /\
  str_split x2b (Some 1) (QubesRemote.service_name_of method None) =
    [method] /\
  QubesRemote.service_name_of (method ++ "+" ++ arg)%string None =
    QubesRemote.service_name_of method (Some arg).
Proof.
  intro Hplus. unfold str_split, QubesRemote.service_name_of. repeat split.
  - rewrite list_byte_of_string_app.
    change (list_byte_of_string ("+" ++ arg)%string)
      with (x2b :: list_byte_of_string arg).
    rewrite (bytes_split_once_at _ _ _ Hplus). cbn [map].
    now rewrite !string_of_list_byte_of_string.
  - rewrite (bytes_split_absent _ _ _ Hplus). cbn [map].
    now rewrite string_of_list_byte_of_string.
Qed.

Lemma service_name_round_trip_witness :
  str_split x2b (Some 1)
    (QubesRemote.service_name_of "mgmt.vm.property.Get" (Some "netvm")) =
  ["mgmt.vm.property.Get"; "netvm"].
Proof.
  apply (service_name_round_trip "mgmt.vm.property.Get" "netvm").
  vm_compute. intuition discriminate.
Defined.

(** * qvm_device *)

(** ** The order of rows *)

Lemma str_ltb_Lt (a c : str) :
  String.ltb a c = true <-> String.compare a c = Lt.
Proof.
  unfold String.ltb. destruct (String.compare a c); intuition congruence.
Qed.

Lemma str_compare_trans (a c d : str) :
  String.compare a c = Lt -> String.compare c d = Lt -> String.compare a d = Lt.
Proof.
  intros H1 H2. apply OrderedTypeEx.String_as_OT.cmp_lt.
  apply OrderedTypeEx.String_as_OT.cmp_lt in H1, H2.
  exact (OrderedTypeEx.String_as_OT.lt_trans _ _ _ H1 H2).
Qed.

Lemma str_compare_refl (a : str) : String.compare a a = Eq.
Proof.
  pose proof (String.compare_antisym a a) as H.
  destruct (String.compare a a); simpl in H; congruence.
Qed.

Lemma str_compare_Gt (a c : str) :
  String.compare a c = Gt <-> String.compare c a = Lt.
Proof.
  rewrite (String.compare_antisym c a).
  destruct (String.compare a c); simpl; intuition congruence.
Qed.

(** The comparison of rows as one three-way comparison. *)
Lemma row_ltb_compare (x y : row) :
  row_ltb x y =
  let '(x1, x2, x3) := x in
  let '(y1, y2, y3) := y in
  match String.compare x1 y1 with
  | Lt => true
  | Gt => false
  | Eq =>
      match String.compare x2 y2 with
      | Lt => true
      | Gt => false
      | Eq => match String.compare x3 y3 with Lt => true | _ => false end
      end
  end.
Proof.
  destruct x as [[x1 x2] x3], y as [[y1 y2] y3]. unfold row_ltb, String.ltb.
  destruct (String.eqb_spec x1 y1) as [->|N1]; cbn [negb].
  - rewrite str_compare_refl.
    destruct (String.eqb_spec x2 y2) as [->|N2]; cbn [negb].
    + now rewrite str_compare_refl.
    + destruct (String.compare x2 y2) eqn:E; try reflexivity.
      apply String.compare_eq_iff in E. contradiction.
  - destruct (String.compare x1 y1) eqn:E; try reflexivity.
    apply String.compare_eq_iff in E. contradiction.
Qed.

Lemma row_le_refl (x : row) : row_le x x.
Proof.
  unfold row_le. rewrite row_ltb_compare. destruct x as [[x1 x2] x3].
  now rewrite !str_compare_refl.
Qed.

Lemma row_ltb_trans (x y z : row) :
  row_ltb x y = true -> row_ltb y z = true -> row_ltb x z = true.
Proof.
  rewrite !row_ltb_compare.
  destruct x as [[x1 x2] x3], y as [[y1 y2] y3], z as [[z1 z2] z3].
  destruct (String.compare x1 y1) eqn:A1; try discriminate.
  - apply String.compare_eq_iff in A1. subst y1.
    destruct (String.compare x1 z1) eqn:B1; try discriminate; [|reflexivity].
    destruct (String.compare x2 y2) eqn:A2; try discriminate.
    + apply String.compare_eq_iff in A2. subst y2.
      destruct (String.compare x2 z2) eqn:B2; try discriminate; [|reflexivity].
      destruct (String.compare x3 y3) eqn:A3; try discriminate.
      destruct (String.compare y3 z3) eqn:B3; try discriminate.
      intros _ _. now rewrite (str_compare_trans _ _ _ A3 B3).
    + destruct (String.compare y2 z2) eqn:B2; try discriminate.
      * apply String.compare_eq_iff in B2. subst z2. now rewrite A2.
      * intros _ _. now rewrite (str_compare_trans _ _ _ A2 B2).
  - intros _. destruct (String.compare y1 z1) eqn:B1; try discriminate.
    + apply String.compare_eq_iff in B1. subst z1. now rewrite A1.
    + intros _. now rewrite (str_compare_trans _ _ _ A1 B1).
Qed.

Lemma row_ltb_irrefl (x : row) : row_ltb x x = false.
Proof. apply row_le_refl. Qed.

Lemma row_ltb_asym (x y : row) : row_ltb x y = true -> row_ltb y x = false.
Proof.
  intro H. destruct (row_ltb y x) eqn:E; [|reflexivity].
  pose proof (row_ltb_trans _ _ _ H E) as C.
  now rewrite row_ltb_irrefl in C.
Qed.

(** Rows that are not less than each other are the same row. *)
Lemma row_le_antisym (x y : row) : row_le x y -> row_le y x -> x = y.
Proof.
  unfold row_le. rewrite !row_ltb_compare.
  destruct x as [[x1 x2] x3], y as [[y1 y2] y3].
  rewrite (String.compare_antisym y1 x1), (String.compare_antisym y2 x2),
    (String.compare_antisym y3 x3).
  destruct (String.compare x1 y1) eqn:E1; cbn [CompOpp]; try discriminate.
  destruct (String.compare x2 y2) eqn:E2; cbn [CompOpp]; try discriminate.
  destruct (String.compare x3 y3) eqn:E3; cbn [CompOpp]; try discriminate.
  intros _ _.
  apply String.compare_eq_iff in E1, E2, E3. now subst.
Qed.

Lemma row_le_trans (x y z : row) : row_le x y -> row_le y z -> row_le x z.
Proof.
  unfold row_le. intros Hxy Hyz.
  destruct (row_ltb z x) eqn:E; [|reflexivity].
  destruct (row_ltb x y) eqn:Exy.
  - now rewrite (row_ltb_trans _ _ _ E Exy) in Hyz.
  - assert (x = y) by (apply row_le_antisym; [exact Hxy | exact Exy]).
    subst y. congruence.
Qed.

(** ** [sorted] and [prepare_table] *)

Lemma insert_row_perm (x : row) rows :
  Permutation (x :: rows) (insert_row x rows).
Proof.
  induction rows as [|y rows IH]; cbn [insert_row]; [reflexivity|].
  destruct (row_ltb x y); [reflexivity|].
  rewrite perm_swap. now constructor.
Qed.

Lemma insert_row_sorted (x : row) rows :
  StronglySorted row_le rows -> StronglySorted row_le (insert_row x rows).
Proof.
  induction 1 as [|y rows Hs IH Hy]; cbn [insert_row].
  - repeat constructor.
  - destruct (row_ltb x y) eqn:E.
    + constructor; [now constructor|].
      assert (Hxy : row_le x y) by (apply row_ltb_asym; exact E).
      constructor; [exact Hxy|].
      eapply Forall_impl; [|exact Hy]. intros z Hz.
      exact (row_le_trans _ _ _ Hxy Hz).
    + constructor; [exact IH|].
      apply (Permutation_Forall (insert_row_perm x rows)).
      constructor; [exact E | exact Hy].
Qed.

Lemma sorted_from (rows : list row) : forall acc,
  StronglySorted row_le acc ->
  StronglySorted row_le (fold_left (fun acc x => insert_row x acc) rows acc) /\
  Permutation (acc ++ rows)
              (fold_left (fun acc x => insert_row x acc) rows acc).
Proof.
  induction rows as [|x rows IH]; intros acc Hacc; cbn [fold_left].
  - split; [exact Hacc | now rewrite List.app_nil_r].
  - destruct (IH (insert_row x acc) (insert_row_sorted x acc Hacc)) as [Hs Hp].
    split; [exact Hs|].
    rewrite <- Hp. rewrite <- Permutation_middle.
    apply (Permutation_app_tail rows (insert_row_perm x acc)).
Qed.

Lemma sorted_spec (rows : list row) :
  StronglySorted row_le (sorted rows) /\ Permutation rows (sorted rows).
Proof. apply (sorted_from rows []). constructor. Qed.

(** A sorted arrangement of given rows is unique. *)
Lemma sorted_unique (xs : list row) : forall ys,
  StronglySorted row_le xs -> StronglySorted row_le ys ->
  Permutation xs ys -> xs = ys.
Proof.
  induction xs as [|x xs IH]; intros ys Hx Hy Hp.
  - apply Permutation_nil in Hp. now subst.
  - destruct ys as [|y ys];
      [apply Permutation_sym, Permutation_nil in Hp; discriminate|].
    apply StronglySorted_inv in Hx. destruct Hx as [Hxs Hxall].
    apply StronglySorted_inv in Hy. destruct Hy as [Hys Hyall].
    assert (x = y).
    { assert (Hin1 : In x (y :: ys))
        by (apply (Permutation_in _ Hp); now left).
      assert (Hin2 : In y (x :: xs))
        by (apply (Permutation_in _ (Permutation_sym Hp)); now left).
      destruct Hin1 as [->|Hin1]; [reflexivity|].
      destruct Hin2 as [->|Hin2]; [reflexivity|].
      rewrite Forall_forall in Hxall, Hyall.
      apply row_le_antisym; [now apply Hxall | now apply Hyall]. }
    subst y. f_equal. apply IH; try assumption.
    exact (Permutation_cons_inv Hp).
Qed.

Lemma table_rows (lines : list qvm_device.Line.t) : forall output,
  fold_left
    (fun output line =>
       output ++
       [(qvm_device.Line.ident line, qvm_device.Line.description line,
         qvm_device.Line.assignments line)])
    lines output = output ++ map row_of lines.
Proof.
  induction lines as [|line lines IH]; intro output; cbn [fold_left map].
  - now rewrite List.app_nil_r.
  - rewrite IH, <- List.app_assoc. reflexivity.
Qed.

(** X12: the table is the header, on a terminal only, followed by one row
    per device line, arranged so that every row is less than or equal to all
    the rows after it; the header is not sorted in among the rows. *)
Theorem prepare_table_is_sorted (isatty : bool)
        (dev_list : list qvm_device.Line.t) :
  exists rows,
    qvm_device.prepare_table isatty dev_list = table_head isatty ++ rows /\
    StronglySorted row_le rows /\
    Permutation (map row_of dev_list) rows.
Proof.
  exists (sorted (map row_of dev_list)).
  unfold qvm_device.prepare_table. rewrite table_rows. cbn [Datatypes.app].
  split; [now destruct isatty|]. apply sorted_spec.
Qed.

(** X13: the table does not depend on the order in which the device lines
    come in. *)
Theorem prepare_table_ignores_input_order (isatty : bool)
        (lines lines' : list qvm_device.Line.t) :
  Permutation lines lines' ->
  qvm_device.prepare_table isatty lines =
  qvm_device.prepare_table isatty lines'.
Proof.
  intro Hp. unfold qvm_device.prepare_table. rewrite !table_rows.
  cbn [Datatypes.app]. f_equal.
  destruct (sorted_spec (map row_of lines)) as [Hs Hperm].
  destruct (sorted_spec (map row_of lines')) as [Hs' Hperm'].
  apply sorted_unique; try assumption.
  rewrite <- Hperm, <- Hperm'. now apply Permutation_map.
Qed.

(** ** Options of [attach] and [assign] *)

Lemma str_split_once_absent (s : str) :
  ~ In x3d (list_byte_of_string s) -> str_split x3d (Some 1) s = [s].
Proof.
  intro H. unfold str_split. rewrite (bytes_split_absent _ _ _ H). cbn [map].
  now rewrite string_of_list_byte_of_string.
Qed.

Lemma str_split_two_at_most sep (s : str) :
  (exists k v, str_split sep (Some 1) s = [k; v]) \/
  str_split sep (Some 1) s = [s].
Proof.
  unfold str_split.
  destruct (in_dec Byte.byte_eq_dec sep (list_byte_of_string s)) as [Hin|Hout].
  - left. destruct (bytes_split_once sep _ Hin) as (before & -> & _ & _).
    now eexists _, _.
  - right. rewrite (bytes_split_absent _ _ _ Hout). cbn [map].
    now rewrite string_of_list_byte_of_string.
Qed.

Lemma dict_of_str_seq_raises items : forall acc e,
  dict_of_str_seq items acc = Raise e -> e = ValueError.
Proof.
  induction items as [|item items IH]; intros acc e; cbn [dict_of_str_seq];
    [discriminate|].
  destruct item as [|k [|v [|x item]]]; try (now intros [= <-]).
  apply IH.
Qed.

Lemma dict_of_str_seq_bad (opts : list str) : forall acc opt,
  In opt opts -> ~ In x3d (list_byte_of_string opt) ->
  dict_of_str_seq (map (str_split x3d (Some 1)) opts) acc = Raise ValueError.
Proof.
  induction opts as [|o opts IH]; intros acc opt Hin Hbad; [destruct Hin|].
  cbn [map dict_of_str_seq].
  destruct Hin as [->|Hin].
  - now rewrite (str_split_once_absent _ Hbad).
  - destruct (str_split_two_at_most x3d o) as [(k & v & ->)| ->].
    + now apply (IH _ opt).
    + reflexivity.
Qed.

Lemma given_options_or (a : qvm_device.args) :
  match qvm_device.option_ a with
  | Some [] => []
  | Some given => given
  | None => []
  end = given_options a.
Proof. unfold given_options. now destruct (qvm_device.option_ a) as [[|]|]. Qed.

(** X15: the options of [attach] and [assign].  [--ro] always wins: with it
    the options hold [read-only = yes], whatever [-o read-only=...] said.
    An [-o] value without an equals sign makes the command raise
    [ValueError], and nothing else is ever raised here; without any [-o] the
    options are empty, but for the [--ro] entry. *)
Theorem options_of_command_line (a : qvm_device.args) :
  (forall o, qvm_device.options_of a = Ret o -> qvm_device.ro a = true ->
             dict_get (PStr "read-only") o = Some (PStr "yes")) /\
  (forall opt, In opt (given_options a) ->
               ~ In x3d (list_byte_of_string opt) ->
               qvm_device.options_of a = Raise ValueError) /\
  (forall e, qvm_device.options_of a = Raise e -> e = ValueError) /\
  (given_options a = [] ->
   qvm_device.options_of a =
   Ret (if qvm_device.ro a then [(PStr "read-only", PStr "yes")] else [])).
Proof.
  unfold qvm_device.options_of. rewrite given_options_or.
  split; [|split; [|split]].
  - intros o Ho Hro. rewrite Hro in Ho.
    destruct (dict_of_str_seq _ _) as [d|e]; [|discriminate].
    injection Ho as <-. apply dict_get_set_same.
  - intros opt Hin Hbad. now rewrite (dict_of_str_seq_bad _ [] opt Hin Hbad).
  - intros e He.
    destruct (dict_of_str_seq _ _) as [d|e'] eqn:E; [discriminate|].
    injection He as <-. exact (dict_of_str_seq_raises _ _ _ E).
  - intros ->. cbn [map dict_of_str_seq]. now destruct (qvm_device.ro a).
Qed.

Lemma options_of_command_line_witness :
  qvm_device.options_of attach_args =
    Ret [(PStr "read-only", PStr "yes")] /\
  dict_get (PStr "read-only") [(PStr "read-only", PStr "yes")] =
    Some (PStr "yes").
Proof.
  split; [reflexivity|].
  exact (proj1 (options_of_command_line attach_args) _ eq_refl eq_refl).
Defined.

(** ** The four commands *)

Section DeviceCommands.
Import qvm_device.

Lemma perform_history rq d :
  history (snd (perform rq d)) = history d ++ [rq] /\
  fst (perform rq d) = respond d (history d) rq.
Proof. now split. Qed.

(** X16: [attach_device].  Options that do not parse stop the command
    before any request.  Otherwise the first request is [attach], with the
    options and [required] untouched; [assign] follows only with
    [--persistent] and only after the attach was accepted, for the same
    device with the same options and [required] set; a refusal is what the
    command raises. *)
Theorem attach_device_requests (a : args) (d : daemon) :
  (forall e, options_of a = Raise e -> device a <> None ->
             attach_device a d = (Raise e, d)) /\
  (forall dev o,
      device a = Some dev -> options_of a = Ret o ->
      let asg := assignment_with dev o in
      let attach := Attach (domains a) (devclass a) asg in
      let assign := Assign (domains a) (devclass a)
                      (DeviceAssignment.set_required true asg) in
      match respond d (history d) attach with
      | Raise e =>
          fst (attach_device a d) = Raise e /\
          history (snd (attach_device a d)) = history d ++ [attach]
      | Ret _ =>
          if required a then
            history (snd (attach_device a d)) = history d ++ [attach; assign] /\
            (forall e, fst (attach_device a d) = Raise e <->
                       respond d (history d ++ [attach]) assign = Raise e)
          else
            attach_device a d =
            (Ret tt, {| respond := respond d;
                        history := history d ++ [attach] |})
      end).
Proof.
  split.
  - intros e He Hdev. unfold attach_device, bind, lift, assignment_of.
    destruct (device a) as [dev|]; [|contradiction]. now rewrite He.
  - intros dev o Hdev Ho asg attach assign. subst asg attach assign.
    unfold attach_device, bind, lift, assignment_of, assignment_with, perform,
      ret.
    rewrite Hdev, Ho. cbn [respond history].
    destruct (respond d (history d) _) as [l|e] eqn:E; [|now split].
    destruct (required a) eqn:Er; [|reflexivity].
    cbn [respond history].
    destruct (respond d (history d ++ _) _) as [l'|e'];
      cbn [fst snd history]; (split; [now rewrite <- List.app_assoc|]).
    + intro e. split; discriminate.
    + intro e. split; intros [= ->]; reflexivity.
Qed.

(** X17: [assign_device] issues one request, [assign], never [attach]; the
    assignment attaches automatically, carries the options and is required
    exactly with [--required]; the daemon's refusal is what it raises. *)
Theorem assign_device_requests (a : args) (d : daemon) dev o :
  device a = Some dev -> options_of a = Ret o ->
  let asg :=
    DeviceAssignment.set_options o
      (DeviceAssignment.set_required (required a)
         (DeviceAssignment.set_attach_automatically true
            (DeviceAssignment.__init__ (Device.backend_domain dev)
                                       (Device.ident dev)))) in
  let assign := Assign (domains a) (devclass a) asg in
  history (snd (assign_device a d)) = history d ++ [assign] /\
  DeviceAssignment.attach_automatically asg = Some true /\
  DeviceAssignment.required asg = Some (required a) /\
  DeviceAssignment.options asg = Some o /\
  (forall e, fst (assign_device a d) = Raise e <->
             respond d (history d) assign = Raise e).
Proof.
  intros Hdev Ho asg assign. subst asg assign.
  unfold assign_device, bind, lift, assignment_of, perform, ret.
  rewrite Hdev, Ho. cbn [respond history].
  destruct (respond d (history d) _) as [l|e'];
    cbn [fst snd history]; (split; [reflexivity|]);
    (split; [reflexivity|]); (split; [reflexivity|]);
    (split; [reflexivity|]); intro e; split;
    try discriminate; intros [= ->]; reflexivity.
Qed.
End DeviceCommands.

Lemma attach_device_requests_witness :
  qvm_device.history
    (snd (qvm_device.attach_device attach_args (willing_daemon []))) =
  [qvm_device.Attach "work" "block"
     (assignment_with sda_device [(PStr "read-only", PStr "yes")]);
   qvm_device.Assign "work" "block"
     (qvm_device.DeviceAssignment.set_required true
        (assignment_with sda_device [(PStr "read-only", PStr "yes")]))].
Proof.
  exact (proj1 (proj2 (attach_device_requests attach_args (willing_daemon []))
                  sda_device [(PStr "read-only", PStr "yes")]
                  eq_refl eq_refl)).
Defined.

Lemma assign_device_requests_witness :
  qvm_device.history
    (snd (qvm_device.assign_device attach_args (willing_daemon []))) =
  [qvm_device.Assign "work" "block"
     (qvm_device.DeviceAssignment.set_options [(PStr "read-only", PStr "yes")]
        (qvm_device.DeviceAssignment.set_required true
           (qvm_device.DeviceAssignment.set_attach_automatically true
              (qvm_device.DeviceAssignment.__init__ "sys-usb" "sda"))))].
Proof.
  exact (proj1 (assign_device_requests attach_args (willing_daemon [])
                  sda_device [(PStr "read-only", PStr "yes")]
                  eq_refl eq_refl)).
Defined.

Section DetachUnassign.
Import qvm_device.





End DetachUnassign.


(** ** [DeviceAction.parse_qubes_app] *)

Section ParseQubesApp.
Import qvm_device.
Import qvm_device.DeviceAction.

(** X19: with nothing on the command line the action does nothing.  A value
    without a colon is reported through [parser.error], quoting the value,
    and that is all: no domain or device is looked up and the namespace is
    left alone. *)
Theorem parse_qubes_app_needs_a_colon (allow_unknown : bool) (devclass : str)
        (w : world) :
  (dest w = DestNone ->
   parse_qubes_app allow_unknown devclass w = (Ret tt, w)) /\
  (forall value,
      dest w = DestText value ->
      ~ In x3a (list_byte_of_string value) ->
      parse_qubes_app allow_unknown devclass w =
      (error w (ExpectedCombination value),
       note (Error (ExpectedCombination value)) w)).
Proof.
  split.
  - intro H. unfold parse_qubes_app. now rewrite H.
  - intros value H Hcolon. unfold parse_qubes_app. rewrite H.
    unfold try_except, bind at 1, lift at 1, str_split.
    rewrite (bytes_split_absent _ _ _ Hcolon). reflexivity.
Qed.

(** X20: a value [vmname:device_id] is cut at its first colon, so that a
    device id may itself hold colons.  When the domain exists and exposes the
    device (as a known one, unless unknown devices are allowed), the two are
    looked up once each, in that order, nothing is reported, and the
    namespace holds the device of that domain and id. *)
Theorem parse_qubes_app_resolves (allow_unknown : bool) (devclass : str)
        (w : world) (vmname device_id vm : str) (unknown : bool) :
  dest w = DestText (vmname ++ ":" ++ device_id)%string ->
  ~ In x3a (list_byte_of_string vmname) ->
  domain w vmname = Ret vm ->
  device_unknown w vm devclass device_id = Ret unknown ->
  negb allow_unknown && unknown = false ->
  parse_qubes_app allow_unknown devclass w =
  (Ret tt, resolved w vmname vm devclass device_id).
Proof.
  intros Hdest Hcolon Hdom Hdev Hknown. unfold parse_qubes_app. rewrite Hdest.
  assert (Hsplit : str_split x3a (Some 1) (vmname ++ ":" ++ device_id)%string =
                   [vmname; device_id]).
  { unfold str_split. rewrite list_byte_of_string_app.
    change (list_byte_of_string (":" ++ device_id)%string)
      with (x3a :: list_byte_of_string device_id).
    rewrite (bytes_split_once_at _ _ _ Hcolon). cbn [map].
    now rewrite !string_of_list_byte_of_string. }
  unfold try_except at 1, bind at 1, lift at 1. rewrite Hsplit.
  cbn [unpack2]. unfold bind at 1, try_except at 1, bind at 1, lookup_domain.
  rewrite Hdom. unfold ret at 1.
  unfold bind at 1, try_except at 1, bind at 1, lookup_device.
  cbn [device_unknown note]. rewrite Hdev, Hknown.
  unfold ret, setattr_dest, resolved.
  cbn [domain device_unknown error error_runtime dest events note].
  now rewrite <- List.app_assoc.
Qed.

(** X14: the [BACKEND:DEVID] column of the listing, cut at its first colon
    as [parse_qubes_app] does, gives back the backend domain and the device
    id, as long as the domain name holds no colon. *)
Theorem line_ident_round_trip (device : Device.t) (attached_to : option str) :
  ~ In x3a (list_byte_of_string (Device.backend_domain device)) ->
  str_split x3a (Some 1) (Line.ident (Line.__init__ device attached_to)) =
  [Device.backend_domain device; Device.ident device].
Proof.
  intro Hcolon. cbn [Line.ident Line.__init__].
  unfold str_split. rewrite list_byte_of_string_app.
  change (list_byte_of_string (":" ++ Device.ident device)%string)
    with (x3a :: list_byte_of_string (Device.ident device)).
  rewrite (bytes_split_once_at _ _ _ Hcolon). cbn [map].
  now rewrite !string_of_list_byte_of_string.
Qed.
End ParseQubesApp.

Lemma parse_qubes_app_needs_a_colon_witness :
  qvm_device.DeviceAction.parse_qubes_app false "block"
    (known_world (qvm_device.DeviceAction.DestText "sda")) =
  (Raise (OSError 2),
   qvm_device.DeviceAction.note
     (qvm_device.DeviceAction.Error
        (qvm_device.DeviceAction.ExpectedCombination "sda"))
     (known_world (qvm_device.DeviceAction.DestText "sda"))).
Proof.
  apply (proj2 (parse_qubes_app_needs_a_colon false "block"
                  (known_world (qvm_device.DeviceAction.DestText "sda")))
           "sda" eq_refl).
  vm_compute. intuition discriminate.
Defined.

Lemma parse_qubes_app_resolves_witness :
  qvm_device.DeviceAction.dest
    (snd (qvm_device.DeviceAction.parse_qubes_app false "block"
            (known_world
               (qvm_device.DeviceAction.DestText "sys-usb:2-1:1.0")))) =
  qvm_device.DeviceAction.DestDevice (Some "sys-usb") "2-1:1.0".
Proof.
  rewrite (parse_qubes_app_resolves false "block"
             (known_world (qvm_device.DeviceAction.DestText "sys-usb:2-1:1.0"))
             "sys-usb" "2-1:1.0" "sys-usb" false eq_refl).
  - reflexivity.
  - vm_compute. intuition discriminate.
  - reflexivity.
  - reflexivity.
  - reflexivity.
Defined.

Lemma line_ident_round_trip_witness :
  str_split x3a (Some 1) (qvm_device.Line.ident sda_line) = ["sys-usb"; "sda"].
Proof.
  apply (line_ident_round_trip sda_device None).
  vm_compute. intuition discriminate.
Defined.

Lemma prepare_table_ignores_input_order_witness :
  qvm_device.prepare_table true [sda_line; mic_line] =
  qvm_device.prepare_table true [mic_line; sda_line].
Proof.
  apply (prepare_table_ignores_input_order true [sda_line; mic_line]
           [mic_line; sda_line]).
  apply perm_swap.
Defined.

(** ** [main] *)

Lemma last_app_nonempty {A} (xs ys : list A) d :
  ys <> [] -> last (xs ++ ys) d = last ys d.
Proof.
  intro H. induction xs as [|x xs IH]; [reflexivity|].
  cbn [Datatypes.app]. rewrite <- IH.
  destruct (xs ++ ys) eqn:E; [|reflexivity].
  apply app_eq_nil in E. destruct E as [_ ->]. contradiction.
Qed.

Lemma bytes_split_app_sep sep (a rest : bytes) :
  exists p pre,
    bytes_split sep None (a ++ sep :: rest) =
    (p :: pre) ++ bytes_split sep None rest.
Proof.
  induction a as [|c a (p & pre & IH)]; cbn [Datatypes.app bytes_split].
  - rewrite (Byte.byte_dec_lb eq_refl). cbn [andb option_map].
    now exists [], [].
  - rewrite IH. destruct (Byte.eqb c sep); cbn [andb option_map].
    + rewrite IH. now exists [], (p :: pre).
    + now exists (c :: p), pre.
Qed.

Lemma basename_of_path (dir name : str) :
  ~ In x2f (list_byte_of_string name) ->
  basename (dir ++ "/" ++ name)%string = name /\ basename name = name.
Proof.
  intro H. unfold basename. split.
  - rewrite list_byte_of_string_app.
    change (list_byte_of_string ("/" ++ name)%string)
      with (x2f :: list_byte_of_string name).
    destruct (bytes_split_app_sep x2f (list_byte_of_string dir)
                (list_byte_of_string name)) as (p & pre & ->).
    rewrite last_app_nonempty by apply bytes_split_nonempty.
    rewrite (bytes_split_absent _ _ _ H). cbn [last].
    apply string_of_list_byte_of_string.
  - rewrite (bytes_split_absent _ _ _ H). cbn [last].
    apply string_of_list_byte_of_string.
Qed.

Lemma prefix_empty (s : str) : String.prefix "" s = true.
Proof. now destruct s. Qed.

Lemma substring_all (s : str) : String.substring 0 (String.length s) s = s.
Proof. induction s as [|c s IH]; [reflexivity|]. cbn. now rewrite IH. Qed.

Lemma devclass_of_qvm_name (path c : str) :
  basename path = ("qvm-" ++ c)%string ->
  qvm_device.devclass_of path =
  if String.eqb c "device" then None else Some c.
Proof.
  intro H. unfold qvm_device.devclass_of. rewrite H.
  cbn [String.append String.prefix String.length].
  assert (Hp : forall s, (if Ascii.ascii_dec "q" "q"
                          then if Ascii.ascii_dec "v" "v"
                          then if Ascii.ascii_dec "m" "m"
                          then if Ascii.ascii_dec "-" "-"
                          then String.prefix "" s
                          else false else false else false else false) = true).
  { intro s. repeat (destruct (Ascii.ascii_dec _ _); [|contradiction]).
    apply prefix_empty. }
  rewrite Hp. cbn [andb].
  change (String.eqb (String "q" (String "v" (String "m" (String "-" c))))
                     "qvm-device")
    with (String.eqb c "device").
  destruct (String.eqb c "device"); cbn [negb]; [reflexivity|].
  cbn [Nat.sub String.substring]. rewrite Nat.sub_0_r.
  now rewrite substring_all.
Qed.

(** X21: the device class [main] takes from the program name.  Called as
    [qvm-<class>], from any directory, the class is [<class>], the empty
    name after a bare [qvm-] included; called as [qvm-device] there is
    none, and none for any name that does not start with [qvm-]. *)
Theorem devclass_of_program_name (dir c : str) :
  ~ In x2f (list_byte_of_string c) ->
  qvm_device.devclass_of (dir ++ "/" ++ "qvm-" ++ c)%string =
    (if String.eqb c "device" then None else Some c) /\
  qvm_device.devclass_of ("qvm-" ++ c)%string =
    (if String.eqb c "device" then None else Some c) /\
  (forall path, String.prefix "qvm-" (basename path) = false ->
                qvm_device.devclass_of path = None).
Proof.
  intro H.
  assert (Hn : ~ In x2f (list_byte_of_string ("qvm-" ++ c)%string)).
  { change (list_byte_of_string ("qvm-" ++ c)%string)
      with (bytes_of "qvm-" ++ list_byte_of_string c).
    intro Hin. apply in_app_or in Hin. destruct Hin as [Hin|Hin];
      [vm_compute in Hin; intuition discriminate | contradiction]. }
  destruct (basename_of_path dir ("qvm-" ++ c)%string Hn) as [H1 H2].
  split; [now apply devclass_of_qvm_name|].
  split; [now apply devclass_of_qvm_name|].
  intros path Hp. unfold qvm_device.devclass_of. now rewrite Hp.
Qed.

Lemma devclass_of_program_name_witness :
  qvm_device.devclass_of "/usr/bin/qvm-block" = Some "block".
Proof.
  refine (proj1 (devclass_of_program_name "/usr/bin" "block" _)).
  vm_compute. intuition discriminate.
Defined.

Lemma wants_class_list_In (curr_action : list str) :
  qvm_device.wants_class_list curr_action = true <->
  In "--list-device-classes" curr_action \/ In "--list-classes" curr_action.
Proof.
  unfold qvm_device.wants_class_list. rewrite existsb_exists. split.
  - intros (x & Hx & E). apply orb_true_iff in E.
    destruct E as [E|E]; apply String.eqb_eq in E; subst; [now left|now right].
  - intros [H|H]; eexists; (split; [exact H|]).
    + reflexivity.
    + reflexivity.
Qed.

(** X22: [main].  With [--list-device-classes] or [--list-classes] anywhere
    among the arguments it prints the device classes, one per line, and
    returns 0: no parser is built and no command runs.  Otherwise, once the
    arguments parse, the command runs once; [main] returns 0 when it
    returns, prints the error and returns 1 when it raises a
    [QubesException], and lets every other exception through. *)
Theorem main_exit_codes (p : qvm_device.process) :
  (In "--list-device-classes" (qvm_device.argv_rest p) \/
   In "--list-classes" (qvm_device.argv_rest p) ->
   forall classes,
     qvm_device.list_deviceclass p = Ret classes ->
     qvm_device.main p =
     (Ret 0%Z,
      qvm_device.show
        (qvm_device.Print (String.concat qvm_device.newline classes)) p)) /\
  (~ In "--list-device-classes" (qvm_device.argv_rest p) ->
   ~ In "--list-classes" (qvm_device.argv_rest p) ->
   let devclass := qvm_device.devclass_of (qvm_device.argv0 p) in
   qvm_device.parse_args p devclass = Ret tt ->
   fst (qvm_device.main p) =
     match qvm_device.func p with
     | Ret _ => Ret 0%Z
     | Raise e =>
         if qvm_device.is_QubesException p e then Ret 1%Z else Raise e
     end /\
   qvm_device.shown (snd (qvm_device.main p)) =
     qvm_device.shown p ++
     [qvm_device.GetParser devclass; qvm_device.ParseArgs;
      qvm_device.RunFunc] ++
     match qvm_device.func p with
     | Ret _ => []
     | Raise e =>
         if qvm_device.is_QubesException p e
         then [qvm_device.PrintError e] else []
     end).
Proof.
  split.
  - intros Hflag classes Hc. apply wants_class_list_In in Hflag.
    unfold qvm_device.main. rewrite Hflag.
    unfold bind, lift. now rewrite Hc.
  - intros H1 H2 devclass Hparse.
    assert (Hw : qvm_device.wants_class_list (qvm_device.argv_rest p) = false).
    { destruct (qvm_device.wants_class_list _) eqn:E; [|reflexivity].
      apply wants_class_list_In in E. tauto. }
    unfold qvm_device.main. rewrite Hw. fold devclass.
    unfold bind at 1, qvm_device.emit at 1.
    unfold bind at 1, qvm_device.emit at 1.
    cbn [qvm_device.parse_args qvm_device.show]. rewrite Hparse.
    unfold try_except, bind, qvm_device.emit, ret.
    cbn [qvm_device.func qvm_device.show qvm_device.is_QubesException].
    destruct (qvm_device.func p) as [u|e].
    + cbn [fst snd]. split; [reflexivity|].
      unfold qvm_device.show. cbn [qvm_device.shown].
      rewrite <- !List.app_assoc. reflexivity.
    + destruct (qvm_device.is_QubesException p e);
        cbn [fst snd]; (split; [reflexivity|]);
        unfold qvm_device.show; cbn [qvm_device.shown];
        rewrite <- !List.app_assoc; reflexivity.
Qed.

Lemma main_exit_codes_witness :
  fst (qvm_device.main
         (block_process ["attach"; "work"; "sys-usb:sda"]
            (Raise (QubesException "Device %s not found" ["sda"])))) =
  Ret 1%Z.
Proof.
  refine (proj1 (proj2 (main_exit_codes
                  (block_process ["attach"; "work"; "sys-usb:sda"]
                     (Raise (QubesException "Device %s not found" ["sda"]))))
            _ _ eq_refl)).
  - vm_compute. intuition discriminate.
  - vm_compute. intuition discriminate.
Defined.
